(** * Chat coordinator: room naming, presence registry and message fan-out

    A shallow embedding of [chat-backend/server.js] (the Socket.IO event
    handlers) and of the room-naming and submit helpers of
    [chat-frontend/src/components/Chat.js].

    Conventions of the embedding
    - A JavaScript string is its sequence of code units; the model keeps the
      code units below 256 (Latin-1), so a string is a [string] of [ascii].
    - [userSockets] is a JavaScript [Map]: an association list in insertion
      order, because [keys()] enumerates in that order.
    - The Socket.IO adapter (which socket is in which room) is a finite map
      from socket identifiers to sets of room names.
    - Every handler runs over an explicit [world]: server state, database,
      the emissions made so far and the logs of the external calls. A
      handler is run to completion before the next one starts. *)

From Stdlib Require Import Ascii.
From Stdlib Require String.
From stdpp Require Import base option list gmap strings sorting.

(** ** JavaScript string primitives *)

Module Js.

Definition code (c : ascii) : nat := nat_of_ascii c.

(** [String.prototype.startsWith]. *)
Fixpoint startsWith (s p : string) {struct p} : bool :=
  match p, s with
  | EmptyString, _ => true
  | String _ _, EmptyString => false
  | String a p', String b s' => if decide (a = b) then startsWith s' p' else false
  end.

(** White space and line terminators of the language, below 256. *)
Definition isWhiteSpace (c : ascii) : bool :=
  bool_decide (code c ∈ [9; 10; 11; 12; 13; 32; 160]).

Fixpoint trimStart (s : string) : string :=
  match s with
  | EmptyString => EmptyString
  | String c s' => if isWhiteSpace c then trimStart s' else s
  end.

Fixpoint trimEnd (s : string) : string :=
  match s with
  | EmptyString => EmptyString
  | String c s' =>
      match trimEnd s' with
      | EmptyString => if isWhiteSpace c then EmptyString else String c EmptyString
      | t => String c t
      end
  end.

(** [String.prototype.trim]. *)
Definition trim (s : string) : string := trimEnd (trimStart s).

(** A string is truthy when it is not empty. *)
Definition truthy (s : string) : bool :=
  match s with EmptyString => false | String _ _ => true end.

Definition isUpper (c : ascii) : bool :=
  let n := code c in
  bool_decide (65 ≤ n ≤ 90) || (bool_decide (192 ≤ n ≤ 222) && negb (bool_decide (n = 215))).

Definition lowerChar (c : ascii) : ascii :=
  if isUpper c then ascii_of_nat (code c + 32) else c.

(** [String.prototype.toLowerCase]. *)
Fixpoint toLowerCase (s : string) : string :=
  match s with
  | EmptyString => EmptyString
  | String c s' => String (lowerChar c) (toLowerCase s')
  end.

(** Does the regular expression [/p/i] match at the start of [s]?  [p] is
    a literal in lower case. *)
Fixpoint matchesAt (p s : string) {struct p} : bool :=
  match p, s with
  | EmptyString, _ => true
  | String _ _, EmptyString => false
  | String a p', String b s' =>
      if decide (lowerChar b = a) then matchesAt p' s' else false
  end.

(** [s.replace(/p/gi, '')] for a literal [p] of length [S n]: scan from the
    left, drop every match, resume after it.  [skip] counts the code units
    of the current match still to drop. *)
Fixpoint removeAll_from (p : string) (skip : nat) (s : string) : string :=
  match s with
  | EmptyString => EmptyString
  | String c s' =>
      match skip with
      | S k => removeAll_from p k s'
      | O =>
          if matchesAt p s
          then removeAll_from p (String.length p - 1) s'
          else String c (removeAll_from p 0 s')
      end
  end.

Definition removeAll_ci (p s : string) : string := removeAll_from p 0 s.

(** [String.prototype.split] with a separator of one code unit. *)
Fixpoint split (sep : ascii) (s : string) : list string :=
  match s with
  | EmptyString => [EmptyString]
  | String c s' =>
      if decide (c = sep) then EmptyString :: split sep s'
      else match split sep s' with
           | [] => [String c EmptyString]
           | w :: ws => String c w :: ws
           end
  end.

(** [Array.prototype.join]. *)
Definition join (sep : string) (l : list string) : string := String.concat sep l.

(** [Array.prototype.sort] without a comparator: a stable sort by code
    units. *)
Fixpoint sort_insert (x : string) (l : list string) : list string :=
  match l with
  | [] => [x]
  | y :: l' => if String.ltb x y then x :: l else y :: sort_insert x l'
  end.

Definition sort (l : list string) : list string :=
  foldl (λ acc x, sort_insert x acc) [] l.

(** [Array.prototype.find]. *)
Definition find {A} (f : A → bool) (l : list A) : option A := List.find f l.

(** Does the code unit [c] occur in [s]? *)
Fixpoint contains (c : ascii) (s : string) : bool :=
  match s with
  | EmptyString => false
  | String b s' => if decide (b = c) then true else contains c s'
  end.

End Js.

(** ** The client's room naming ([Chat.js]) *)

(** [getDMRoomName]: [[user1, user2].sort().join('-')]. *)
Definition getDMRoomName (user1 user2 : string) : string :=
  Js.join "-" (Js.sort [user1; user2]).

(** The room identifier [handleDMClick] builds: [`dm:${getDMRoomName(..)}`]. *)
Definition canonicalDirectRoom (username dmUsername : string) : string :=
  "dm:" +:+ getDMRoomName username dmUsername.

(** The channels the client offers. *)
Definition named_channels : list string := ["general"; "random"; "tech"; "gaming"].


(** ** The JavaScript [Map] behind [userSockets] *)

Module JsMap.

Definition t : Type := list (string * string).

Definition empty : t := [].

(** [Map.prototype.get]. *)
Fixpoint get (k : string) (m : t) : option string :=
  match m with
  | [] => None
  | (k', v) :: m' => if decide (k' = k) then Some v else get k m'
  end.

(** [Map.prototype.set]: an existing key keeps its position, a new key goes
    to the end. *)
Fixpoint set (k v : string) (m : t) : t :=
  match m with
  | [] => [(k, v)]
  | (k', v') :: m' => if decide (k' = k) then (k, v) :: m' else (k', v') :: set k v m'
  end.

(** [Map.prototype.delete]. *)
Fixpoint delete (k : string) (m : t) : t :=
  match m with
  | [] => []
  | (k', v) :: m' => if decide (k' = k) then delete k m' else (k', v) :: delete k m'
  end.

(** [Array.from(m.keys())]. *)
Definition keys (m : t) : list string := m.*1.

End JsMap.

(** ** Persistence: the two tables of [migration.sql] and the Prisma calls *)

Record User := mkUser {
  user_id : nat;
  user_username : string;
  user_password_hash : string
}.

Record Message := mkMessage {
  message_id : nat;
  message_content : string;
  message_room : string;
  message_createdAt : nat;
  message_userId : nat
}.

Record database := mkDatabase {
  users : list User;
  messages : list Message
}.

(** The calls made on the Prisma client, in the order they are made. *)
Inductive db_call :=
| call_user_findUnique (username : string)
| call_user_create (username : string)
| call_message_create (content room : string) (userId : nat)
| call_message_findMany (room : string).

(** [prisma.user.findUnique({ where: { username } })]. *)
Definition user_findUnique (username : string) (d : database) : option User :=
  List.find (λ u, bool_decide (user_username u = username)) (users d).

Definition user_by_id (id : nat) (d : database) : option User :=
  List.find (λ u, bool_decide (user_id u = id)) (users d).

(** [prisma.user.create]: the identifier auto-increments; the unique index
    on [username] rejects a second row with the same name. *)
Definition user_create (username hash : string) (d : database) : option (User * database) :=
  match user_findUnique username d with
  | Some _ => None
  | None =>
      let u := mkUser (S (length (users d))) username hash in
      Some (u, mkDatabase (users d ++ [u]) (messages d))
  end.

(** [prisma.message.create]: the foreign key on [user_id] rejects an author
    that is not in [users]; [created_at] defaults to the current time. *)
Definition message_create (now : nat) (content room : string) (userId : nat)
    (d : database) : option (Message * database) :=
  match user_by_id userId d with
  | None => None
  | Some _ =>
      let m := mkMessage (S (length (messages d))) content room now userId in
      Some (m, mkDatabase (users d) (messages d ++ [m]))
  end.

Fixpoint insert_by_createdAt (m : Message) (l : list Message) : list Message :=
  match l with
  | [] => [m]
  | m' :: l' =>
      if bool_decide (message_createdAt m < message_createdAt m')
      then m :: l else m' :: insert_by_createdAt m l'
  end.

(** [prisma.message.findMany({ where: { room }, orderBy: { createdAt: 'asc' },
    include: { user } })]: every row of the room with its author. *)
Definition message_findMany (room : string) (d : database) : option (list (Message * User)) :=
  let rows := List.filter (λ m, bool_decide (message_room m = room)) (messages d) in
  let sorted := foldl (λ acc m, insert_by_createdAt m acc) [] rows in
  mapM (λ m, u ← user_by_id (message_userId m) d; Some (m, u)) sorted.

(** ** Events, emissions and the Socket.IO adapter *)

(** The payload of [chatMessage] and of the entries of [loadHistory]. *)
Record messageData := mkMessageData {
  content : string;
  username : string;
  createdAt : nat
}.

(** Server-to-client events. *)
Inductive event :=
| updateUserList (names : list string)
| loadHistory (history : list messageData)
| chatMessage (m : messageData)
| typing (username : string)
| stopTyping (username : string).

(** The verified identity [authSocket] attaches to a socket. *)
Record jwt_user := mkJwtUser {
  jwt_id : nat;
  jwt_username : string
}.

(** A connected socket: its identity and the rooms it is in. *)
Record socket := mkSocket {
  sock_user : jwt_user;
  sock_rooms : gset string
}.

Definition sock_username (s : socket) : string := jwt_username (sock_user s).

(** How an event is addressed. *)
Inductive target :=
| Broadcast                                   (* io.emit *)
| ToRoom (room : string)                      (* io.to(room).emit *)
| ToRoomExcept (room : string) (sid : string) (* socket.to(room).emit *)
| ToSocket (sid : string).                    (* socket.emit *)

(** The sockets currently in [room]. *)
Definition membersOf (socks : gmap string socket) (room : string) : gset string :=
  dom (filter (λ kv, room ∈ sock_rooms kv.2) socks).

(** The sockets an emission reaches. *)
Definition recipients (socks : gmap string socket) (t : target) : gset string :=
  match t with
  | Broadcast => dom socks
  | ToRoom room => membersOf socks room
  | ToRoomExcept room sid => membersOf socks room ∖ {[sid]}
  | ToSocket sid => {[sid]}
  end.

Record emission := mkEmission {
  em_target : target;
  em_event : event;
  em_recipients : gset string
}.

(** ** The world the handlers run in *)

(** The outcome of the HTTP request to the generation service. *)
Inductive fetch_result :=
| FetchThrows                         (* network error, or a body that is not JSON *)
| FetchNotOk                          (* [response.ok] is false *)
| FetchOk (reply : option string).    (* [data.choices?.[0]?.message?.content] *)

(** What the handlers do not control. *)
Record environment := mkEnvironment {
  OPENAI_API_KEY : option string;          (* process.env.OPENAI_API_KEY *)
  fetch_completion : string → fetch_result;(* the generation service, by prompt *)
  db_fails : nat → bool;                   (* does the n-th Prisma call throw? *)
  bot_password_hash : nat → string         (* bcrypt.hash('bot_' + Date.now(), 10) *)
}.

Record world := mkWorld {
  userSockets : JsMap.t;              (* name -> socket identifier *)
  sockets : gmap string socket;       (* the connected sockets *)
  db : database;
  now : nat;                          (* the clock *)
  db_calls : list db_call;            (* Prisma calls so far *)
  ai_calls : list string;             (* prompts given to getAIResponse *)
  fetch_calls : list string;          (* prompts sent to the generation service *)
  emitted : list emission;            (* emissions so far, oldest first *)
  console : list string               (* console.error *)
}.

Definition initial_world (d : database) (clock : nat) : world :=
  mkWorld JsMap.empty ∅ d clock [] [] [] [] [].

Definition with_userSockets (f : JsMap.t → JsMap.t) (w : world) : world :=
  mkWorld (f (userSockets w)) (sockets w) (db w) (now w) (db_calls w) (ai_calls w)
    (fetch_calls w) (emitted w) (console w).

Definition with_sockets (f : gmap string socket → gmap string socket) (w : world) : world :=
  mkWorld (userSockets w) (f (sockets w)) (db w) (now w) (db_calls w) (ai_calls w)
    (fetch_calls w) (emitted w) (console w).

Definition with_db (d : database) (w : world) : world :=
  mkWorld (userSockets w) (sockets w) d (now w) (db_calls w) (ai_calls w)
    (fetch_calls w) (emitted w) (console w).

Definition log_db_call (c : db_call) (w : world) : world :=
  mkWorld (userSockets w) (sockets w) (db w) (now w) (db_calls w ++ [c]) (ai_calls w)
    (fetch_calls w) (emitted w) (console w).

Definition log_ai_call (prompt : string) (w : world) : world :=
  mkWorld (userSockets w) (sockets w) (db w) (now w) (db_calls w) (ai_calls w ++ [prompt])
    (fetch_calls w) (emitted w) (console w).

Definition log_fetch_call (prompt : string) (w : world) : world :=
  mkWorld (userSockets w) (sockets w) (db w) (now w) (db_calls w) (ai_calls w)
    (fetch_calls w ++ [prompt]) (emitted w) (console w).

Definition log_emission (e : emission) (w : world) : world :=
  mkWorld (userSockets w) (sockets w) (db w) (now w) (db_calls w) (ai_calls w)
    (fetch_calls w) (emitted w ++ [e]) (console w).

Definition log_console (s : string) (w : world) : world :=
  mkWorld (userSockets w) (sockets w) (db w) (now w) (db_calls w) (ai_calls w)
    (fetch_calls w) (emitted w) (console w ++ [s]).

(** Several emissions at once, for stating what a handler emitted. *)
Definition log_emissions (es : list emission) (w : world) : world :=
  mkWorld (userSockets w) (sockets w) (db w) (now w) (db_calls w) (ai_calls w)
    (fetch_calls w) (emitted w ++ es) (console w).

(** Time passes between handlers. *)
Definition advance_clock (dt : nat) (w : world) : world :=
  mkWorld (userSockets w) (sockets w) (db w) (now w + dt) (db_calls w) (ai_calls w)
    (fetch_calls w) (emitted w) (console w).

(** ** Handlers as state transformers that may throw *)

Inductive result (A : Type) :=
| Ok (a : A)
| Throw.
Arguments Ok {A} a.
Arguments Throw {A}.

Definition M (A : Type) : Type := world → result A * world.

#[global] Instance M_ret : MRet M := λ A a w, (Ok a, w).

#[global] Instance M_bind : MBind M := λ A B f m w,
  match m w with
  | (Ok a, w') => f a w'
  | (Throw, w') => (Throw, w')
  end.

(** [try { body } catch (err) { handler }]: what [body] did before it threw
    stays done. *)
Definition try_catch {A} (body handler : M A) : M A := λ w,
  match body w with
  | (Ok a, w') => (Ok a, w')
  | (Throw, w') => handler w'
  end.

Definition gets {A} (f : world → A) : M A := λ w, (Ok (f w), w).

Definition modify (f : world → world) : M unit := λ w, (Ok (), f w).

Definition throw {A} : M A := λ w, (Throw, w).

(** The world a handler leaves behind. *)
Definition exec {A} (m : M A) (w : world) : world := (m w).2.

(** [target.emit(event)]: the recipients are those of the moment. *)
Definition emit (t : target) (e : event) : M unit :=
  modify (λ w, log_emission (mkEmission t e (recipients (sockets w) t)) w).

Definition console_error (s : string) : M unit := modify (log_console s).

Section Server.

Variable env : environment.

(** A call on the Prisma client: logged, then it throws when the storage
    fails or the call is rejected; otherwise it updates the database. *)
Definition prisma {A} (c : db_call) (op : database → option (A * database)) : M A := λ w,
  let w' := log_db_call c w in
  if db_fails env (length (db_calls w)) then (Throw, w')
  else match op (db w) with
       | Some (a, d) => (Ok a, with_db d w')
       | None => (Throw, w')
       end.

Definition query {A} (f : database → A) (d : database) : option (A * database) :=
  Some (f d, d).

(** [getBotUser]. *)
Definition getBotUser : M (option User) :=
  try_catch
    (botUser ← prisma (call_user_findUnique "AI Bot") (query (user_findUnique "AI Bot"));
     match botUser with
     | Some b => mret (Some b)
     | None =>
         t ← gets now;
         b ← prisma (call_user_create "AI Bot")
               (user_create "AI Bot" (bot_password_hash env t));
         mret (Some b)
     end)
    (console_error "Error getting bot user:";; mret None).

(** [getAIResponse]. *)
Definition getAIResponse (message : string) : M string :=
  modify (log_ai_call message);;
  match OPENAI_API_KEY env with
  | None | Some EmptyString => mret "AI service is not configured."
  | Some _ =>
      modify (log_fetch_call message);;
      match fetch_completion env message with
      | FetchThrows => mret "AI bot failed to respond."
      | FetchNotOk => mret "AI service error. Please check your API key."
      | FetchOk (Some (String c r)) => mret (String c r)
      | FetchOk _ => mret "Sorry, I couldn't understand that."
      end
  end.

(** The [connection] listener.  Socket.IO has put the new socket in the room
    named by its own identifier. *)
Definition on_connection (sid : string) (user : jwt_user) : M unit :=
  modify (with_sockets (insert sid (mkSocket user {[sid]})));;
  modify (with_userSockets (JsMap.set (jwt_username user) sid));;
  names ← gets (λ w, JsMap.keys (userSockets w));
  emit Broadcast (updateUserList names).

(** The [joinRoom] listener. *)
Definition on_joinRoom (sid : string) (s : socket) (room : string) : M unit :=
  modify (with_sockets (insert sid (mkSocket (sock_user s) (sock_rooms s ∪ {[room]}))));;
  try_catch
    (rows ← prisma (call_message_findMany room) (λ d, r ← message_findMany room d; Some (r, d));
     emit (ToSocket sid)
       (loadHistory
          (map (λ r, mkMessageData (message_content r.1) (user_username r.2)
                       (message_createdAt r.1)) rows)))
    (console_error "joinRoom").

(** The fan-out of a message of a direct room. *)
Definition fanout_direct (sid : string) (s : socket) (room : string) (m : messageData) : M unit :=
  match Js.split ":"%char room !! 1 with
  | None => throw
  | Some part =>
      let usernames := Js.split "-"%char part in
      let otherUser := Js.find (λ u, negb (bool_decide (u = sock_username s))) usernames in
      recipientSocketId ← gets (λ w, otherUser ≫= λ u, JsMap.get u (userSockets w));
      match recipientSocketId with
      | Some (String c r) => emit (ToRoom (String c r)) (chatMessage m)
      | _ => mret ()
      end;;
      emit (ToSocket sid) (chatMessage m)
  end.

(** The fan-out of a message. *)
Definition fanout (sid : string) (s : socket) (room : string) (m : messageData) : M unit :=
  if Js.startsWith room "dm:"
  then fanout_direct sid s room m
  else emit (ToRoom room) (chatMessage m).

(** The assistant part of the [chatMessage] listener. *)
Definition bot_reply (room content : string) : M unit :=
  if Js.startsWith (Js.toLowerCase content) "@bot" && negb (Js.startsWith room "dm:")
  then
    let prompt := Js.trim (Js.removeAll_ci "@bot" content) in
    if Js.truthy prompt then
      aiReply ← getAIResponse prompt;
      botUser ← getBotUser;
      match botUser with
      | Some b =>
          t ← gets now;
          botMsg ← prisma (call_message_create aiReply room (user_id b))
                     (message_create t aiReply room (user_id b));
          emit (ToRoom room)
            (chatMessage (mkMessageData (message_content botMsg) (user_username b)
                            (message_createdAt botMsg)))
      | None => mret ()
      end
    else mret ()
  else mret ().

(** The [chatMessage] listener. *)
Definition on_chatMessage (sid : string) (s : socket) (room content : string) : M unit :=
  try_catch
    (t ← gets now;
     msg ← prisma (call_message_create content room (jwt_id (sock_user s)))
             (message_create t content room (jwt_id (sock_user s)));
     let messageData :=
       mkMessageData (message_content msg) (jwt_username (sock_user s)) (message_createdAt msg) in
     fanout sid s room messageData;;
     bot_reply room content)
    (console_error "chatMessage").

(** The [typing] and [stopTyping] listeners. *)
Definition on_typing (sid : string) (s : socket) (room : string) : M unit :=
  emit (ToRoomExcept room sid) (typing (sock_username s)).

Definition on_stopTyping (sid : string) (s : socket) (room : string) : M unit :=
  emit (ToRoomExcept room sid) (stopTyping (sock_username s)).

(** The [disconnect] listener.  Socket.IO has already taken the socket out
    of every room. *)
Definition on_disconnect (sid : string) (s : socket) : M unit :=
  modify (with_sockets (delete sid));;
  modify (with_userSockets (JsMap.delete (sock_username s)));;
  names ← gets (λ w, JsMap.keys (userSockets w));
  emit Broadcast (updateUserList names).

End Server.

(** ** The client's signals ([Chat.js]) *)

Module Client.

(** Client-to-server events. *)
Inductive signal :=
| joinRoom (room : string)
| chatMessage (room content : string)
| typing (room : string)
| stopTyping (room : string).

(** [handleSubmit], with the text of the input box, the current room and
    [socket?.connected]. *)
Definition handleSubmit (message room : string) (connected : bool) : list signal :=
  if Js.truthy (Js.trim message) && connected
  then [chatMessage room (Js.trim message); stopTyping room]
  else [].

(** [handleRoomChange], with a socket. *)
Definition handleRoomChange (room newRoom : string) : list signal :=
  if bool_decide (newRoom ≠ room)
  then [stopTyping room; joinRoom newRoom]
  else [].

(** [handleDMClick]. *)
Definition handleDMClick (username room dmUsername : string) : list signal :=
  handleRoomChange room (canonicalDirectRoom username dmUsername).

End Client.

(** ** The server's event loop *)

Inductive inbound :=
| Connection (sid : string) (user : jwt_user)
| FromClient (sid : string) (sig : Client.signal)
| Disconnect (sid : string)
| Tick (dt : nat).

(** One inbound event.  Socket.IO gives every connection an identifier that
    is not in use, and only a connected socket has listeners. *)
Definition handle (env : environment) (i : inbound) : M unit :=
  match i with
  | Connection sid user =>
      s ← gets (λ w, sockets w !! sid);
      match s with
      | Some _ => mret ()
      | None => on_connection sid user
      end
  | FromClient sid sig =>
      s ← gets (λ w, sockets w !! sid);
      match s with
      | None => mret ()
      | Some s =>
          match sig with
          | Client.joinRoom room => on_joinRoom env sid s room
          | Client.chatMessage room content => on_chatMessage env sid s room content
          | Client.typing room => on_typing sid s room
          | Client.stopTyping room => on_stopTyping sid s room
          end
      end
  | Disconnect sid =>
      s ← gets (λ w, sockets w !! sid);
      match s with
      | None => mret ()
      | Some s => on_disconnect sid s
      end
  | Tick dt => modify (advance_clock dt)
  end.

Definition run (env : environment) (events : list inbound) (w : world) : world :=
  foldl (λ w i, exec (handle env i) w) w events.

(** The emissions a handler adds to those of [w]. *)
Definition new_emissions {A} (m : M A) (w : world) : list emission :=
  drop (length (emitted w)) (emitted (exec m w)).

(** The events socket [sid] receives from a list of emissions. *)
Definition received (sid : string) (es : list emission) : list event :=
  em_event <$> List.filter (λ e, bool_decide (sid ∈ em_recipients e)) es.

(** The rooms a socket has joined, its own room apart. *)
Definition joined_rooms (w : world) (sid : string) : gset string :=
  match sockets w !! sid with
  | Some s => sock_rooms s ∖ {[sid]}
  | None => ∅
  end.

(** A room the server treats as a direct room. *)
Definition is_direct (room : string) : bool := Js.startsWith room "dm:".

(** ** Worlds used in the examples *)

Definition alice : jwt_user := mkJwtUser 1 "alice".
Definition bob : jwt_user := mkJwtUser 2 "bob".
Definition carol : jwt_user := mkJwtUser 3 "carol".
Definition bob_smith : jwt_user := mkJwtUser 4 "bob-smith".

Definition db0 : database :=
  mkDatabase [mkUser 1 "alice" "h1"; mkUser 2 "bob" "h2"; mkUser 3 "carol" "h3";
              mkUser 4 "bob-smith" "h4"] [].

(** No key for the generation service, storage available. *)
Definition env_unconfigured : environment :=
  mkEnvironment None (λ _, FetchThrows) (λ _, false) (λ _, "bot-hash").

(** Storage unavailable. *)
Definition env_storage_down : environment :=
  mkEnvironment None (λ _, FetchThrows) (λ _, true) (λ _, "bot-hash").

(** alice and bob are connected and in [general]. *)
Definition w_general : world :=
  run env_unconfigured
    [Connection "s1" alice; FromClient "s1" (Client.joinRoom "general");
     Connection "s2" bob; FromClient "s2" (Client.joinRoom "general")]
    (initial_world db0 100).


(** ** What the fan-out emits, in closed form *)

(** The socket the server resolves for a direct room: the first name of
    the room that is not the sender's, looked up in the registry. *)
Definition resolved_recipient (registry : JsMap.t) (sender part : string) : option string :=
  Js.find (λ u, negb (bool_decide (u = sender))) (Js.split "-"%char part)
    ≫= λ u, JsMap.get u registry.

(** The emissions of [fanout] in world [w]. *)
Definition fanout_emissions (w : world) (sid : string) (s : socket) (room : string)
    (m : messageData) : list emission :=
  if Js.startsWith room "dm:" then
    match Js.split ":"%char room !! 1 with
    | Some part =>
        match resolved_recipient (userSockets w) (sock_username s) part with
        | Some (String c r) =>
            [mkEmission (ToRoom (String c r)) (chatMessage m) (membersOf (sockets w) (String c r))]
        | _ => []
        end ++ [mkEmission (ToSocket sid) (chatMessage m) {[sid]}]
    | None => []
    end
  else [mkEmission (ToRoom room) (chatMessage m) (membersOf (sockets w) room)].

(** The user's own message, as stored. *)
Definition own_message (w : world) (s : socket) (room content : string) : Message :=
  mkMessage (S (length (messages (db w)))) content room (now w) (jwt_id (sock_user s)).

(** The payload the user's message is delivered with. *)
Definition own_data (w : world) (s : socket) (content : string) : messageData :=
  mkMessageData content (jwt_username (sock_user s)) (now w).

(** The world once the user's message is stored and fanned out. *)
Definition after_own_message (w : world) (sid : string) (s : socket) (room content : string) : world :=
  log_emissions (fanout_emissions w sid s room (own_data w s content))
    (with_db (mkDatabase (users (db w)) (messages (db w) ++ [own_message w s room content]))
       (log_db_call (call_message_create content room (jwt_id (sock_user s))) w)).

(** Storing the user's message fails: the storage throws, or the author is
    not a user. *)
Definition store_fails (env : environment) (w : world) (s : socket) : Prop :=
  db_fails env (length (db_calls w)) = true
    ∨ user_by_id (jwt_id (sock_user s)) (db w) = None.




(** The prompt the listener extracts from a message. *)
Definition userPrompt (content : string) : string :=
  Js.trim (Js.removeAll_ci "@bot" content).





(** ** Worlds that only grow *)

(** From [w] to [w'] the registry, the sockets and the clock are untouched
    and the tables and the emissions are only appended to. *)
Definition grows (w w' : world) : Prop :=
  userSockets w' = userSockets w ∧
  sockets w' = sockets w ∧
  now w' = now w ∧
  (∃ us, users (db w') = users (db w) ++ us) ∧
  (∃ ms, messages (db w') = messages (db w) ++ ms) ∧
  (∃ es, emitted w' = emitted w ++ es).

Definition Grows {A} (m : M A) : Prop := ∀ w, grows w (m w).2.

Definition db_grows {A} (op : database → option (A * database)) : Prop :=
  ∀ d a d', op d = Some (a, d') →
    (∃ us, users d' = users d ++ us) ∧ (∃ ms, messages d' = messages d ++ ms).

(** ** Well-formed worlds *)

(** Every entry of the registry names a connected socket of that identity,
    and every connected socket is in the room named by its identifier. *)
Definition well_formed (w : world) : Prop :=
  (∀ name sid, JsMap.get name (userSockets w) = Some sid →
     ∃ s, sockets w !! sid = Some s ∧ sock_username s = name) ∧
  (∀ sid s, sockets w !! sid = Some s → sid ∈ sock_rooms s).

(** ** The claims of the specification that the code does not meet, as stated *)

(** Distinct unordered pairs of names get distinct direct rooms. *)
Definition collision_free_at (a b c d : string) : Prop :=
  canonicalDirectRoom a b = canonicalDirectRoom c d →
  (a = c ∧ b = d) ∨ (a = d ∧ b = c).

(** A send is rejected: nothing is stored and nothing is emitted. *)
Definition send_rejected (env : environment) (w : world) (sid room content : string) : Prop :=
  let w' := exec (handle env (FromClient sid (Client.chatMessage room content))) w in
  messages (db w') = messages (db w) ∧ emitted w' = emitted w.

(** A send the specification wants rejected. *)
Definition invalid_send (w : world) (sid room content : string) : Prop :=
  Js.trim content = "" ∨ room ∉ joined_rooms w sid.

(** The sender of a send hears about it: some emission of the handler
    reaches the sender's socket. *)
Definition sender_notified (env : environment) (w : world) (sid room content : string) : Prop :=
  ∃ e, e ∈ new_emissions (handle env (FromClient sid (Client.chatMessage room content))) w
       ∧ sid ∈ em_recipients e.

(** The disconnect of socket [sid] removes the entry of [name] exactly when
    the entry maps to [sid]. *)
Definition unregister_guarded (env : environment) (w : world) (sid name : string) : Prop :=
  let w' := exec (handle env (Disconnect sid)) w in
  (is_Some (JsMap.get name (userSockets w)) ∧ JsMap.get name (userSockets w') = None)
  ↔ JsMap.get name (userSockets w) = Some sid.

(** The disconnect of socket [sid] makes socket [peer] receive a
    stop-typing notification for [name]. *)
Definition stop_typing_on_disconnect (env : environment) (w : world)
    (sid name peer : string) : Prop :=
  stopTyping name ∈ received peer (new_emissions (handle env (Disconnect sid)) w).



(** alice is connected and has joined no room; bob is in [general]. *)
Definition w_lobby : world :=
  run env_unconfigured
    [Connection "s1" alice; Connection "s2" bob; FromClient "s2" (Client.joinRoom "general")]
    (initial_world db0 100).

(** bob has connected twice; the registry maps him to the newer socket. *)
Definition w_reconnect : world :=
  run env_unconfigured [Connection "s2" bob; Connection "s3" bob] (initial_world db0 100).

(** alice and bob are in [general] and alice is typing. *)
Definition w_typing : world :=
  run env_unconfigured [FromClient "s1" (Client.typing "general")] w_general.


(** alice, bob-smith and bob are connected; alice has opened the direct
    room with bob-smith, carol is in [general]. *)
Definition w_direct : world :=
  run env_unconfigured
    [Connection "s1" alice; Connection "s2" bob_smith; Connection "s3" bob;
     Connection "s4" carol; FromClient "s4" (Client.joinRoom "general");
     FromClient "s1" (Client.joinRoom (canonicalDirectRoom "alice" "bob-smith"))]
    (initial_world db0 100).

(** ** More of the client and of the server's configuration *)

Module JsExtra.

(** [String.prototype.includes]. *)
Fixpoint includes (s p : string) : bool :=
  Js.startsWith s p ||
  match s with
  | EmptyString => false
  | String _ s' => includes s' p
  end.

(** [[...new Set(l)]]: the elements of [l] in the order of their first
    occurrence. *)
Definition Set_from (l : list string) : list string :=
  foldl (λ acc x, if decide (x ∈ acc) then acc else acc ++ [x]) [] l.

End JsExtra.

(** [allowedOrigins] of [server.js]:
    [process.env.ALLOWED_ORIGINS?.split(',') || ['http://localhost:3002']]. *)
Definition allowedOrigins (ALLOWED_ORIGINS : option string) : list string :=
  match ALLOWED_ORIGINS with
  | Some v => Js.split ","%char v
  | None => ["http://localhost:3002"]
  end.

(** [corsOptions.origin]: [true] when the callback is given [(null, true)],
    [false] when it is given the error. *)
Definition cors_origin (ALLOWED_ORIGINS : option string) (origin : option string) : bool :=
  match origin with
  | None => true
  | Some o =>
      negb (Js.truthy o)
      || bool_decide (o ∈ allowedOrigins ALLOWED_ORIGINS)
      || JsExtra.includes o "vercel.app"
  end.

(** The state of the [Chat] component and its socket listeners. *)
Module ChatView.

Record state := mkState {
  messages : list messageData;
  onlineUsers : list string;
  typingUsers : list string
}.

Definition initial : state := mkState [] [] [].

(** The listeners registered in [useEffect], for the user [username]. *)
Definition receive (username : string) (e : event) (st : state) : state :=
  match e with
  | loadHistory history => mkState history (onlineUsers st) (typingUsers st)
  | chatMessage m => mkState (messages st ++ [m]) (onlineUsers st) (typingUsers st)
  | updateUserList users =>
      mkState (messages st) (List.filter (λ u, negb (bool_decide (u = username))) users)
        (typingUsers st)
  | typing typingUser =>
      if bool_decide (typingUser ≠ username)
      then mkState (messages st) (onlineUsers st)
             (JsExtra.Set_from (typingUsers st ++ [typingUser]))
      else st
  | stopTyping typingUser =>
      mkState (messages st) (onlineUsers st)
        (List.filter (λ u, negb (bool_decide (u = typingUser))) (typingUsers st))
  end.

Definition receive_all (username : string) (es : list event) (st : state) : state :=
  foldl (λ st e, receive username e st) st es.

(** [getDisplayRoomName]; [None] when it throws.  A name that is not found
    prints as [undefined]. *)
Definition getDisplayRoomName (username room : string) : option string :=
  if Js.startsWith room "dm:" then
    part ← Js.split ":"%char room !! 1;
    let otherUser :=
      Js.find (λ u, negb (bool_decide (u = username))) (Js.split "-"%char part) in
    Some ("@" +:+ default "undefined" otherUser)
  else Some ("#" +:+ room).

(** The class of the button of an online user: is it shown active? *)
Definition dm_button_active (room user : string) : bool := JsExtra.includes room user.

End ChatView.

(** The [App] component ([App.js]) over the browser's [localStorage]. *)
Module App.

Record state := mkState {
  token : option string;
  username : option string
}.

(** The initial state: [useState(localStorage.getItem(..))]. *)
Definition init (localStorage : gmap string string) : state :=
  mkState (localStorage !! "token") (localStorage !! "username").

Definition handleLogin (newToken newUsername : string)
    (localStorage : gmap string string) : gmap string string * state :=
  (<["username" := newUsername]> (<["token" := newToken]> localStorage),
   mkState (Some newToken) (Some newUsername)).

Definition handleLogout (localStorage : gmap string string) : gmap string string * state :=
  (delete "username" (delete "token" localStorage), mkState None None).

Definition truthy (v : option string) : bool :=
  match v with Some s => Js.truthy s | None => false end.

(** [token && username]: the chat is rendered, otherwise the login form. *)
Definition shows_chat (st : state) : bool := truthy (token st) && truthy (username st).

End App.

(** ** Handlers that do not throw, and what they emit *)


(** [m] only appends emissions, all of them satisfying [P]. *)
Definition EmitsOnly {A} (P : emission → Prop) (m : M A) : Prop :=
  ∀ w, ∃ es, emitted (m w).2 = emitted w ++ es ∧ Forall P es.

(** The service is configured: a key that is not empty. *)
Definition configured (env : environment) : Prop :=
  ∃ c k, OPENAI_API_KEY env = Some (String c k).

(** A presence snapshot lists no name twice; other events pass. *)
Definition snapshot_distinct (e : emission) : Prop :=
  match em_event e with
  | updateUserList names => NoDup names
  | _ => True
  end.

(** The emission is not a presence snapshot. *)
Definition no_snapshot (e : emission) : Prop :=
  match em_event e with
  | updateUserList _ => False
  | _ => True
  end.

(** The part of the [joinRoom] listener after [socket.join]. *)
Definition joinRoom_history (env : environment) (sid room : string) : M unit :=
  try_catch
    (rows ← prisma env (call_message_findMany room)
              (λ d, r ← message_findMany room d; Some (r, d));
     emit (ToSocket sid)
       (loadHistory
          (map (λ r, mkMessageData (message_content r.1) (user_username r.2)
                       (message_createdAt r.1)) rows)))
    (console_error "joinRoom").

(** The registry lists each name once. *)
Definition registry_distinct (w : world) : Prop := NoDup (JsMap.keys (userSockets w)).

(** Every presence snapshot emitted so far lists each name once. *)
Definition snapshots_distinct (w : world) : Prop := Forall snapshot_distinct (emitted w).

(** The foreign key of [messages]: every author is a user. *)
Definition authors_known (d : database) : Prop :=
  ∀ m, m ∈ messages d → is_Some (user_by_id (message_userId m) d).

(** Messages in the order of their creation time. *)
Definition by_createdAt (m1 m2 : Message) : Prop :=
  message_createdAt m1 ≤ message_createdAt m2.

(** The entry of [loadHistory] for a row and its author. *)
Definition history_entry (r : Message * User) : messageData :=
  mkMessageData (message_content r.1) (user_username r.2) (message_createdAt r.1).

(** What [bot_reply] does once it has the assistant's reply. *)
Definition bot_post (env : environment) (room aiReply : string) : M unit :=
  botUser ← getBotUser env;
  match botUser with
  | Some b =>
      t ← gets now;
      botMsg ← prisma env (call_message_create aiReply room (user_id b))
                 (message_create t aiReply room (user_id b));
      emit (ToRoom room)
        (chatMessage (mkMessageData (message_content botMsg) (user_username b)
                        (message_createdAt botMsg)))
  | None => mret ()
  end.

(** A delivered message is in the database, with its text and its time. *)
Definition stored (d : database) (e : emission) : Prop :=
  match em_event e with
  | chatMessage md =>
      ∃ m, m ∈ messages d ∧ message_content m = content md
           ∧ message_createdAt m = createdAt md
  | _ => True
  end.

Definition emissions_stored (w : world) : Prop := Forall (stored (db w)) (emitted w).

(** The emission carries no message. *)
Definition no_message (e : emission) : Prop :=
  match em_event e with
  | chatMessage _ => False
  | _ => True
  end.




(** [Set_from] with the elements already seen. *)
Definition Set_add_all (acc l : list string) : list string :=
  foldl (λ acc x, if decide (x ∈ acc) then acc else acc ++ [x]) acc l.

(** * Theorems *)

(** ** Room naming *)

Example canonicalDirectRoom_alice_bob : canonicalDirectRoom "bob" "alice" = "dm:alice-bob".
Proof. reflexivity. Qed.

Example split_room : Js.split ":"%char "dm:alice-bob" = ["dm"; "alice-bob"].
Proof. reflexivity. Qed.

Example trim_spaces : Js.trim "  a b  " = "a b".
Proof. reflexivity. Qed.

Example removeAll_ci_twice : Js.removeAll_ci "@bot" "@Bot hi @BOT there" = " hi  there".
Proof. reflexivity. Qed.

Lemma sort_pair (a b : string) :
  Js.sort [a; b] = if String.ltb b a then [b; a] else [a; b].
Proof. reflexivity. Qed.

Lemma ltb_asym (a b : string) : String.ltb a b = true → String.ltb b a = false.
Proof.
  unfold String.ltb. rewrite (String.compare_antisym a b).
  destruct (String.compare b a); simpl; congruence.
Qed.

Lemma ltb_total (a b : string) :
  String.ltb a b = false → String.ltb b a = false → a = b.
Proof.
  unfold String.ltb. rewrite (String.compare_antisym a b).
  destruct (String.compare b a) eqn:E; simpl; try congruence.
  intros _ _. symmetry. by apply String.compare_eq_iff.
Qed.

Lemma getDMRoomName_comm (a b : string) : getDMRoomName a b = getDMRoomName b a.
Proof.
  unfold getDMRoomName. rewrite !sort_pair.
  destruct (String.ltb b a) eqn:Hba, (String.ltb a b) eqn:Hab; try reflexivity.
  - apply ltb_asym in Hba. congruence.
  - by rewrite (ltb_total a b).
Qed.

(** The name is one of the two joins. *)
Lemma getDMRoomName_cases (a b : string) :
  getDMRoomName a b = a +:+ "-" +:+ b ∨ getDMRoomName a b = b +:+ "-" +:+ a.
Proof.
  unfold getDMRoomName. rewrite sort_pair. destruct (String.ltb b a); simpl; auto.
Qed.

(** A separator that occurs in neither left part splits a join uniquely. *)
Lemma append_sep_inj (sep : ascii) (a c b d : string) :
  Js.contains sep a = false → Js.contains sep c = false →
  a +:+ String sep b = c +:+ String sep d → a = c ∧ b = d.
Proof.
  revert c. induction a as [|x a IH]; intros [|y c]; simpl.
  - intros _ _ [= ->]. done.
  - case_decide; [done|]. intros _ _ [= <- _]. done.
  - case_decide; [done|]. intros _ _ [= -> _]. done.
  - repeat case_decide; try done. intros Ha Hc [= -> Heq].
    destruct (IH c Ha Hc Heq) as [-> ->]. done.
Qed.

Lemma canonicalDirectRoom_direct (a b : string) : is_direct (canonicalDirectRoom a b) = true.
Proof. reflexivity. Qed.

(** C1, counterexample: the pairs {a-b, c} and {a, b-c} are distinct and get
    the same direct room, [dm:a-b-c]. *)
Lemma canonicalDirectRoom_collision : ¬ collision_free_at "a-b" "c" "a" "b-c".
Proof. intros H. destruct (H eq_refl) as [[? _]|[? _]]; discriminate. Qed.

(** C1 (amended): the direct room of two names does not depend on their
    order, starts with the reserved prefix [dm:] and so differs from every
    room the server treats as a channel, the four named channels among them;
    and two pairs of names without the separator [-] that get the same direct
    room are the same unordered pair. *)
Theorem canonicalDirectRoom_spec (a b : string) :
  canonicalDirectRoom a b = canonicalDirectRoom b a ∧
  Js.startsWith (canonicalDirectRoom a b) "dm:" = true ∧
  (∀ room, is_direct room = false → canonicalDirectRoom a b ≠ room) ∧
  (∀ room, room ∈ named_channels → canonicalDirectRoom a b ≠ room) ∧
  (∀ c d,
     Js.contains "-" a = false → Js.contains "-" b = false →
     Js.contains "-" c = false → Js.contains "-" d = false →
     collision_free_at a b c d).
Proof.
  split_and!.
  - unfold canonicalDirectRoom. by rewrite getDMRoomName_comm.
  - reflexivity.
  - intros room Hroom <-. by rewrite canonicalDirectRoom_direct in Hroom.
  - intros room Hin <-. unfold named_channels in Hin.
    repeat (apply elem_of_cons in Hin as [Hin|Hin]; [discriminate Hin|]).
    by apply elem_of_nil in Hin.
  - intros c d Ha Hb Hc Hd Heq. unfold canonicalDirectRoom in Heq.
    injection Heq as Heq.
    destruct (getDMRoomName_cases a b) as [E1|E1], (getDMRoomName_cases c d) as [E2|E2];
      rewrite E1, E2 in Heq; apply append_sep_inj in Heq as [-> ->]; auto.
Qed.

Lemma canonicalDirectRoom_spec_witness :
  collision_free_at "alice" "bob" "bob" "alice".
Proof.
  apply (canonicalDirectRoom_spec "alice" "bob"); reflexivity.
Defined.

(** ** Splitting room names *)

Lemma split_nonempty (sep : ascii) (s : string) : Js.split sep s ≠ [].
Proof.
  induction s as [|c s IH]; simpl; [done|].
  case_decide; [done|]. by destruct (Js.split sep s).
Qed.

(** A room with the prefix [dm:] has a part after the first colon. *)
Lemma split_direct (room : string) :
  Js.startsWith room "dm:" = true → is_Some (Js.split ":"%char room !! 1).
Proof.
  destruct room as [|c1 [|c2 [|c3 r]]]; simpl; try done;
    repeat case_decide; try done; subst; intros _.
  pose proof (split_nonempty ":"%char r) as Hne.
  destruct (Js.split ":"%char r); [done|]. simpl. eauto.
Qed.

(** A string without the separator is one piece. *)
Lemma split_none (sep : ascii) (s : string) :
  Js.contains sep s = false → Js.split sep s = [s].
Proof.
  induction s as [|c s IH]; simpl; [done|].
  case_decide; [done|]. intros Hs. by rewrite (IH Hs).
Qed.

(** The first separator ends the first piece. *)
Lemma split_append (sep : ascii) (a b : string) :
  Js.contains sep a = false →
  Js.split sep (a +:+ String sep b) = a :: Js.split sep b.
Proof.
  induction a as [|c a IH]; simpl.
  - intros _. by case_decide.
  - case_decide; [done|]. intros Ha. by rewrite (IH Ha).
Qed.

Lemma contains_append (c : ascii) (a b : string) :
  Js.contains c (a +:+ b) = Js.contains c a || Js.contains c b.
Proof.
  induction a as [|x a IH]; simpl; [done|]. by case_decide.
Qed.

(** The direct room of two names without a colon splits at its prefix. *)
Lemma split_canonicalDirectRoom (a b : string) :
  Js.contains ":" a = false → Js.contains ":" b = false →
  Js.split ":"%char (canonicalDirectRoom a b) !! 1 = Some (getDMRoomName a b).
Proof.
  intros Ha Hb. unfold canonicalDirectRoom.
  change ("dm:" +:+ getDMRoomName a b) with ("dm" +:+ String ":" (getDMRoomName a b)).
  rewrite split_append by reflexivity.
  rewrite split_none; [done|].
  destruct (getDMRoomName_cases a b) as [-> | ->];
    rewrite !contains_append, ?Ha, ?Hb; reflexivity.
Qed.

(** The name of the direct room of two names without a hyphen splits into
    the two names. *)
Lemma split_getDMRoomName (a b : string) :
  Js.contains "-" a = false → Js.contains "-" b = false →
  Js.split "-"%char (getDMRoomName a b) = [a; b]
  ∨ Js.split "-"%char (getDMRoomName a b) = [b; a].
Proof.
  intros Ha Hb.
  destruct (getDMRoomName_cases a b) as [-> | ->]; [left|right];
    change ("-" +:+ ?x) with (String "-" x);
    rewrite split_append, split_none by done; done.
Qed.

(** ** The presence registry *)

Lemma JsMap_get_set_eq (k v : string) (m : JsMap.t) : JsMap.get k (JsMap.set k v m) = Some v.
Proof.
  induction m as [|[k' v'] m IH]; cbn; [by case_decide|].
  case_decide; cbn; by case_decide.
Qed.

Lemma JsMap_get_set_ne (k k' v : string) (m : JsMap.t) :
  k ≠ k' → JsMap.get k' (JsMap.set k v m) = JsMap.get k' m.
Proof.
  intros Hne. induction m as [|[k0 v0] m IH]; cbn; [by case_decide|].
  case_decide; cbn; repeat case_decide; congruence.
Qed.

Lemma JsMap_get_delete_eq (k : string) (m : JsMap.t) : JsMap.get k (JsMap.delete k m) = None.
Proof.
  induction m as [|[k' v'] m IH]; cbn; [done|].
  case_decide; cbn; [done|]. by case_decide.
Qed.

Lemma JsMap_get_delete_ne (k k' : string) (m : JsMap.t) :
  k ≠ k' → JsMap.get k' (JsMap.delete k m) = JsMap.get k' m.
Proof.
  intros Hne. induction m as [|[k0 v0] m IH]; cbn; [done|].
  case_decide; cbn; repeat case_decide; congruence.
Qed.

Lemma JsMap_keys_delete (k : string) (m : JsMap.t) : k ∉ JsMap.keys (JsMap.delete k m).
Proof.
  unfold JsMap.keys. induction m as [|[k' v'] m IH]; cbn; [apply not_elem_of_nil|].
  case_decide; cbn; [done|]. apply not_elem_of_cons. split; [congruence|done].
Qed.

Lemma JsMap_keys_set (k v : string) (m : JsMap.t) :
  JsMap.keys (JsMap.set k v m)
  = if bool_decide (k ∈ JsMap.keys m) then JsMap.keys m else JsMap.keys m ++ [k].
Proof.
  unfold JsMap.keys. induction m as [|[k' v'] m IH]; [done|].
  cbn [JsMap.set]. destruct (decide (k' = k)) as [->|Hk]; rewrite !fmap_cons; cbn [fst].
  - rewrite bool_decide_eq_true_2; [done|]. apply list_elem_of_here.
  - rewrite IH. case_bool_decide as Hin.
    + rewrite bool_decide_eq_true_2; [done|]. by apply list_elem_of_further.
    + rewrite bool_decide_eq_false_2; [done|].
      intros Hin'. apply elem_of_cons in Hin' as [?|?]; [congruence|done].
Qed.

Lemma JsMap_keys_set_NoDup (k v : string) (m : JsMap.t) :
  NoDup (JsMap.keys m) → NoDup (JsMap.keys (JsMap.set k v m)).
Proof.
  intros Hnd. rewrite JsMap_keys_set. case_bool_decide as Hin; [done|].
  apply NoDup_app. split_and!; [done| |apply NoDup_singleton].
  intros x Hx Hx'. apply list_elem_of_singleton in Hx' as ->. done.
Qed.

Lemma JsMap_keys_delete_sub (k : string) (m : JsMap.t) :
  JsMap.keys (JsMap.delete k m) = List.filter (λ x, negb (bool_decide (x = k))) (JsMap.keys m).
Proof.
  unfold JsMap.keys. induction m as [|[k' v'] m IH]; [done|].
  cbn [JsMap.delete]. destruct (decide (k' = k)) as [->|Hk]; rewrite ?fmap_cons; cbn [fst List.filter].
  - by rewrite bool_decide_eq_true_2.
  - rewrite bool_decide_eq_false_2 by done. cbn [negb]. by rewrite IH.
Qed.

Lemma NoDup_List_filter {A} (f : A → bool) (l : list A) : NoDup l → NoDup (List.filter f l).
Proof.
  induction 1 as [|x l Hx Hnd IH]; simpl; [constructor|].
  destruct (f x); [|done]. constructor; [|done].
  intros Hin. apply list_elem_of_In, filter_In in Hin as [Hin _].
  by apply list_elem_of_In in Hin.
Qed.

Lemma JsMap_keys_delete_NoDup (k : string) (m : JsMap.t) :
  NoDup (JsMap.keys m) → NoDup (JsMap.keys (JsMap.delete k m)).
Proof. intros H. rewrite JsMap_keys_delete_sub. by apply NoDup_List_filter. Qed.

Lemma JsMap_get_None (k : string) (m : JsMap.t) :
  JsMap.get k m = None ↔ k ∉ JsMap.keys m.
Proof.
  unfold JsMap.keys. induction m as [|[k' v'] m IH].
  - split; [intros _; apply not_elem_of_nil|done].
  - cbn [JsMap.get]. rewrite fmap_cons. cbn [fst].
    destruct (decide (k' = k)) as [->|Hk].
    + split; [done|]. intros H. exfalso. apply H, list_elem_of_here.
    + rewrite IH, not_elem_of_cons. split; [by intros ?|by intros [_ ?]].
Qed.

Lemma JsMap_delete_absent (k : string) (m : JsMap.t) :
  JsMap.get k m = None → JsMap.delete k m = m.
Proof.
  induction m as [|[k' v'] m IH]; simpl; [done|].
  case_decide; [done|]. intros Hm. by rewrite IH.
Qed.

Lemma JsMap_delete_set (k v : string) (m : JsMap.t) :
  JsMap.get k m = None → JsMap.delete k (JsMap.set k v m) = m.
Proof.
  induction m as [|[k' v'] m IH]; simpl.
  - intros _. by case_decide.
  - case_decide; [done|]. intros Hm. simpl. case_decide; [done|]. by rewrite IH.
Qed.

#[local] Arguments Js.startsWith : simpl never.
#[local] Arguments Js.split : simpl never.
#[local] Arguments Js.trim : simpl never.
#[local] Arguments Js.removeAll_ci : simpl never.
#[local] Arguments Js.toLowerCase : simpl never.
#[local] Arguments Js.find : simpl never.
#[local] Arguments JsMap.get : simpl never.
#[local] Arguments membersOf : simpl never.

(** ** The Prisma wrapper *)

Section Prisma.

Context (env : environment).

Lemma prisma_throws {A} (c : db_call) (op : database → option (A * database)) (w : world) :
  db_fails env (length (db_calls w)) = true ∨ op (db w) = None →
  prisma env c op w = (Throw, log_db_call c w).
Proof.
  unfold prisma. intros [->| ->]; [done|]. by destruct (db_fails _ _).
Qed.

Lemma prisma_returns {A} (c : db_call) (op : database → option (A * database)) (w : world)
    (a : A) (d : database) :
  db_fails env (length (db_calls w)) = false → op (db w) = Some (a, d) →
  prisma env c op w = (Ok a, with_db d (log_db_call c w)).
Proof. unfold prisma. by intros -> ->. Qed.

End Prisma.

(** ** Running the [chatMessage] listener *)

Lemma new_emissions_app {A} (m : M A) (w : world) (es : list emission) :
  emitted (exec m w) = emitted w ++ es → new_emissions m w = es.
Proof. unfold new_emissions. intros ->. by rewrite drop_app_length. Qed.

Lemma log_emissions_nil (w : world) : log_emissions [] w = w.
Proof. destruct w. unfold log_emissions. simpl. by rewrite app_nil_r. Qed.

Lemma log_emission_emissions (e : emission) (es : list emission) (w : world) :
  log_emission e (log_emissions es w) = log_emissions (es ++ [e]) w.
Proof. unfold log_emission, log_emissions. simpl. by rewrite app_assoc. Qed.

Lemma fanout_run (sid : string) (s : socket) (room : string) (m : messageData) (w : world) :
  fanout sid s room m w = (Ok (), log_emissions (fanout_emissions w sid s room m) w).
Proof.
  unfold fanout, fanout_emissions.
  destruct (Js.startsWith room "dm:") eqn:Hdm; [|done].
  destruct (split_direct _ Hdm) as [part Hpart].
  unfold fanout_direct. rewrite Hpart.
  unfold resolved_recipient, mbind at 1, M_bind, gets.
  destruct (Js.find _ _ ≫= _) as [[|c r]|];
    unfold mbind, M_bind, emit, modify, mret, M_ret, log_emission, log_emissions; simpl;
    by rewrite <- ?app_assoc.
Qed.

(** With the storage up and the author known, the listener stores the
    message, fans it out and goes on to the assistant part. *)
Lemma on_chatMessage_stored (env : environment) (w : world) (sid : string) (s : socket)
    (room content : string) :
  db_fails env (length (db_calls w)) = false →
  is_Some (user_by_id (jwt_id (sock_user s)) (db w)) →
  on_chatMessage env sid s room content w
  = try_catch (bot_reply env room content) (console_error "chatMessage")
      (after_own_message w sid s room content).
Proof.
  intros Hdb [u Hu].
  unfold on_chatMessage, try_catch, mbind at 1, M_bind, gets.
  unfold mbind at 1. 
  rewrite (prisma_returns env _ _ w (own_message w s room content)
             (mkDatabase (users (db w)) (messages (db w) ++ [own_message w s room content])));
    [|done|by unfold message_create; rewrite Hu].
  unfold mbind at 1. simpl. rewrite fanout_run. reflexivity.
Qed.

(** When storing fails, the listener only logs. *)
Lemma on_chatMessage_not_stored (env : environment) (w : world) (sid : string) (s : socket)
    (room content : string) :
  store_fails env w s →
  on_chatMessage env sid s room content w
  = (Ok (), log_console "chatMessage"
              (log_db_call (call_message_create content room (jwt_id (sock_user s))) w)).
Proof.
  intros Hfail.
  unfold on_chatMessage, try_catch, mbind at 1, M_bind, gets. unfold mbind at 1.
  rewrite prisma_throws; [done|].
  destruct Hfail as [?|Hu]; [by left|right].
  unfold message_create. by rewrite Hu.
Qed.

(** Storing either fails or succeeds. *)
Lemma store_fails_dec (env : environment) (w : world) (s : socket) :
  store_fails env w s ∨
  (db_fails env (length (db_calls w)) = false ∧ is_Some (user_by_id (jwt_id (sock_user s)) (db w))).
Proof.
  unfold store_fails.
  destruct (db_fails env _); [by left; left|].
  destruct (user_by_id _ _); [right; eauto|left; by right].
Qed.

(** Every emission of the fan-out carries the message. *)
Lemma fanout_emissions_event (w : world) (sid : string) (s : socket) (room : string)
    (m : messageData) :
  Forall (λ e, em_event e = chatMessage m) (fanout_emissions w sid s room m).
Proof.
  unfold fanout_emissions.
  destruct (Js.startsWith room "dm:").
  - destruct (_ !! 1); [|done].
    destruct (resolved_recipient _ _ _) as [[|c r]|]; simpl; repeat constructor.
  - repeat constructor.
Qed.

(** ** Sends that fail to persist *)

(** C3, counterexample: with the storage down, alice's send in [general]
    makes no emission at all, so no signal reaches alice either. *)
Lemma persistence_failure_is_silent :
  ¬ sender_notified env_storage_down w_general "s1" "general" "hello".
Proof.
  intros (e & He & _). vm_compute in He. by apply elem_of_nil in He.
Qed.

(** C3 (amended): when storing the user's message fails (the storage throws,
    or the author is not a user), the send is aborted: nothing is emitted to
    any socket, the sender included, the database, the presence registry and
    the room memberships are unchanged, the assistant is not invoked, and the
    failure is only logged on the server's console. *)
Theorem chatMessage_persistence_failure (env : environment) (w : world)
    (sid : string) (s : socket) (room content : string) :
  store_fails env w s →
  let w' := exec (on_chatMessage env sid s room content) w in
  emitted w' = emitted w ∧
  db w' = db w ∧
  userSockets w' = userSockets w ∧
  sockets w' = sockets w ∧
  ai_calls w' = ai_calls w ∧
  console w' = console w ++ ["chatMessage"] ∧
  db_calls w' = db_calls w ++ [call_message_create content room (jwt_id (sock_user s))].
Proof.
  intros Hfail w'. subst w'. unfold exec.
  by rewrite on_chatMessage_not_stored.
Qed.

Lemma chatMessage_persistence_failure_witness :
  emitted (exec (on_chatMessage env_storage_down "s1" (mkSocket alice {["s1"; "general"]})
                   "general" "hello") w_general)
  = emitted w_general.
Proof.
  apply (chatMessage_persistence_failure env_storage_down w_general "s1"
           (mkSocket alice {["s1"; "general"]}) "general" "hello").
  left. reflexivity.
Defined.

(** ** The [chatMessage] listener only appends *)

Lemma grows_refl (w : world) : grows w w.
Proof.
  unfold grows. split_and!; try done; exists []; by rewrite app_nil_r.
Qed.

Lemma grows_trans (w1 w2 w3 : world) : grows w1 w2 → grows w2 w3 → grows w1 w3.
Proof.
  intros (H1 & H2 & H3 & [us Hu] & [ms Hm] & [es He])
         (H1' & H2' & H3' & [us' Hu'] & [ms' Hm'] & [es' He']).
  unfold grows. split_and!; try congruence.
  - exists (us ++ us'). by rewrite Hu', Hu, app_assoc.
  - exists (ms ++ ms'). by rewrite Hm', Hm, app_assoc.
  - exists (es ++ es'). by rewrite He', He, app_assoc.
Qed.

Lemma Grows_ret {A} (a : A) : Grows (mret a : M A).
Proof. intros w. apply grows_refl. Qed.

Lemma Grows_bind {A B} (m : M A) (f : A → M B) :
  Grows m → (∀ a, Grows (f a)) → Grows (m ≫= f).
Proof.
  intros Hm Hf w. unfold mbind, M_bind. specialize (Hm w).
  destruct (m w) as [[a|] w1]; simpl in *; [|done].
  eapply grows_trans; [done|apply Hf].
Qed.

Lemma Grows_try_catch {A} (m h : M A) : Grows m → Grows h → Grows (try_catch m h).
Proof.
  intros Hm Hh w. unfold try_catch. specialize (Hm w).
  destruct (m w) as [[a|] w1]; simpl in *; [done|].
  eapply grows_trans; [done|apply Hh].
Qed.

Lemma Grows_gets {A} (f : world → A) : Grows (gets f).
Proof. intros w. apply grows_refl. Qed.

Lemma Grows_emit (t : target) (e : event) : Grows (emit t e).
Proof.
  intros w. unfold grows. simpl. split_and!; try done; try (exists []; by rewrite app_nil_r).
  by eexists.
Qed.

Lemma Grows_console_error (msg : string) : Grows (console_error msg).
Proof.
  intros w. unfold grows. simpl. split_and!; try done; exists []; by rewrite app_nil_r.
Qed.

Lemma Grows_log_ai_call (p : string) : Grows (modify (log_ai_call p)).
Proof.
  intros w. unfold grows. simpl. split_and!; try done; exists []; by rewrite app_nil_r.
Qed.

Lemma Grows_log_fetch_call (p : string) : Grows (modify (log_fetch_call p)).
Proof.
  intros w. unfold grows. simpl. split_and!; try done; exists []; by rewrite app_nil_r.
Qed.

Lemma Grows_prisma {A} (env : environment) (c : db_call)
    (op : database → option (A * database)) :
  db_grows op → Grows (prisma env c op).
Proof.
  intros Hop w. unfold prisma.
  destruct (db_fails env _); simpl.
  { unfold grows. simpl. split_and!; try done; exists []; by rewrite app_nil_r. }
  destruct (op (db w)) as [[a d]|] eqn:E; simpl.
  - destruct (Hop _ _ _ E) as [Hu Hm].
    unfold grows. simpl. split_and!; try done. exists []; by rewrite app_nil_r.
  - unfold grows. simpl. split_and!; try done; exists []; by rewrite app_nil_r.
Qed.

Lemma db_grows_query {A} (f : database → A) : db_grows (query f).
Proof.
  intros d a d' [= _ <-]. split; exists []; by rewrite app_nil_r.
Qed.

Lemma db_grows_user_create (name hash : string) : db_grows (user_create name hash).
Proof.
  intros d a d'. unfold user_create. destruct (user_findUnique _ _); [done|].
  intros [= _ <-]. simpl. split; [by eexists|exists []; by rewrite app_nil_r].
Qed.

Lemma db_grows_message_create (t : nat) (content room : string) (uid : nat) :
  db_grows (message_create t content room uid).
Proof.
  intros d a d'. unfold message_create. destruct (user_by_id _ _); [|done].
  intros [= _ <-]. simpl. split; [exists []; by rewrite app_nil_r|by eexists].
Qed.

Create HintDb grows.
#[local] Hint Resolve Grows_ret Grows_gets Grows_emit Grows_console_error
  Grows_log_ai_call Grows_log_fetch_call Grows_prisma
  db_grows_query db_grows_user_create db_grows_message_create : grows.
#[local] Hint Extern 2 (Grows (_ ≫= _)) => apply Grows_bind; [|intros ?] : grows.
#[local] Hint Extern 2 (Grows (try_catch _ _)) => apply Grows_try_catch : grows.

Lemma Grows_getBotUser (env : environment) : Grows (getBotUser env).
Proof.
  unfold getBotUser. apply Grows_try_catch.
  - apply Grows_bind; [auto with grows|]. intros [b|]; auto with grows.
  - auto with grows.
Qed.

Lemma Grows_getAIResponse (env : environment) (p : string) : Grows (getAIResponse env p).
Proof.
  unfold getAIResponse. apply Grows_bind; [auto with grows|]. intros _.
  destruct (OPENAI_API_KEY env) as [[|c k]|]; auto with grows.
  apply Grows_bind; [auto with grows|]. intros _.
  destruct (fetch_completion env p) as [| |[[|??]|]]; auto with grows.
Qed.

Lemma Grows_bot_reply (env : environment) (room content : string) :
  Grows (bot_reply env room content).
Proof.
  unfold bot_reply. destruct (_ && _); [|auto with grows].
  destruct (Js.truthy _); [|auto with grows].
  apply Grows_bind; [apply Grows_getAIResponse|]. intros reply.
  apply Grows_bind; [apply Grows_getBotUser|]. intros [b|]; auto with grows.
Qed.

(** ** Sends without a prompt for the assistant *)

Lemma bot_reply_empty_prompt (env : environment) (room content : string) :
  Js.trim (Js.removeAll_ci "@bot" content) = "" →
  bot_reply env room content = mret ().
Proof.
  intros H. unfold bot_reply. rewrite H. simpl.
  by destruct (_ && _).
Qed.

(** C10: a message that begins with [@bot] (in any case) and whose prompt,
    once every [@bot] is removed and the rest trimmed, is empty, makes no
    call to the assistant or to the generation service and stores and
    emits no second message: the only call on the storage is the creation of
    the user's message, every emission carries that message, and when the
    storage accepts it the message is stored and fanned out as usual. *)
Theorem empty_prompt_no_reply (env : environment) (w : world)
    (sid : string) (s : socket) (room content : string) :
  Js.startsWith (Js.toLowerCase content) "@bot" = true →
  Js.trim (Js.removeAll_ci "@bot" content) = "" →
  let w' := exec (on_chatMessage env sid s room content) w in
  ai_calls w' = ai_calls w ∧
  fetch_calls w' = fetch_calls w ∧
  users (db w') = users (db w) ∧
  db_calls w' = db_calls w ++ [call_message_create content room (jwt_id (sock_user s))] ∧
  (store_fails env w s →
   messages (db w') = messages (db w) ∧ emitted w' = emitted w) ∧
  (¬ store_fails env w s →
   messages (db w') = messages (db w) ++ [own_message w s room content] ∧
   emitted w' = emitted w ++ fanout_emissions w sid s room (own_data w s content)) ∧
  Forall (λ e, em_event e = chatMessage (own_data w s content))
    (new_emissions (on_chatMessage env sid s room content) w).
Proof.
  intros _ Hprompt w'.
  destruct (store_fails_dec env w s) as [Hfail|[Hdb Hu]].
  - assert (emitted w' = emitted w ++ []) as Hem.
    { subst w'. unfold exec. rewrite on_chatMessage_not_stored by done.
      simpl. by rewrite app_nil_r. }
    rewrite (new_emissions_app _ _ _ Hem).
    subst w'. unfold exec. rewrite on_chatMessage_not_stored by done.
    split_and!; try done.
  - assert (w' = after_own_message w sid s room content) as ->.
    { subst w'. unfold exec. rewrite on_chatMessage_stored by done.
      by rewrite bot_reply_empty_prompt. }
    assert (¬ store_fails env w s) as Hok.
    { intros [?|Hn]; [congruence|]. rewrite Hn in Hu. by destruct Hu. }
    split_and!; try done.
    rewrite (new_emissions_app _ _ (fanout_emissions w sid s room (own_data w s content))).
    + apply fanout_emissions_event.
    + unfold exec. rewrite on_chatMessage_stored by done.
      by rewrite bot_reply_empty_prompt.
Qed.

Lemma empty_prompt_no_reply_witness :
  ai_calls (exec (on_chatMessage env_unconfigured "s1" (mkSocket alice {["s1"; "general"]})
                    "general" "@bot") w_general)
  = ai_calls w_general.
Proof.
  apply (empty_prompt_no_reply env_unconfigured w_general "s1"
           (mkSocket alice {["s1"; "general"]}) "general" "@bot"); reflexivity.
Defined.

(** ** Validation of a send *)

(** Dispatching a [chatMessage] signal of a connected socket runs the
    listener. *)
Lemma handle_chatMessage (env : environment) (w : world) (sid : string) (s : socket)
    (room content : string) :
  sockets w !! sid = Some s →
  handle env (FromClient sid (Client.chatMessage room content)) w
  = on_chatMessage env sid s room content w.
Proof. intros Hs. unfold handle, mbind, M_bind, gets. simpl. by rewrite Hs. Qed.

(** C2, counterexample: alice has joined no room and sends a blank message
    to [general]; the send is one the specification wants rejected, and the
    server stores it and emits it to the members of [general]. *)
Lemma blank_send_to_foreign_room_not_rejected :
  invalid_send w_lobby "s1" "general" " " ∧
  ("general" ∉ joined_rooms w_lobby "s1") ∧
  ¬ send_rejected env_unconfigured w_lobby "s1" "general" " ".
Proof.
  split_and!.
  - by left.
  - vm_compute. done.
  - intros [H _]. vm_compute in H. discriminate.
Qed.

(** C2 (amended): a message that is empty after trimming is rejected by the
    client, whose submit handler then emits nothing to the server.  The
    server's [chatMessage] listener checks neither the content nor the
    sender's membership of the room: whenever the storage accepts the
    message, it is stored and fanned out. *)
Theorem send_validation (env : environment) :
  (∀ message room connected,
     Js.trim message = "" → Client.handleSubmit message room connected = []) ∧
  (∀ w sid s room content,
     sockets w !! sid = Some s →
     ¬ store_fails env w s →
     let w' := exec (handle env (FromClient sid (Client.chatMessage room content))) w in
     ∃ ms es,
       messages (db w') = messages (db w) ++ own_message w s room content :: ms ∧
       emitted w' = emitted w ++ fanout_emissions w sid s room (own_data w s content) ++ es).
Proof.
  split.
  - intros message room connected H. unfold Client.handleSubmit. by rewrite H.
  - intros w sid s room content Hs Hok w'. subst w'.
    unfold exec. rewrite (handle_chatMessage _ _ _ s) by done.
    destruct (store_fails_dec env w s) as [?|[Hdb Hu]]; [done|].
    rewrite on_chatMessage_stored by done.
    assert (Grows (try_catch (bot_reply env room content) (console_error "chatMessage")))
      as HG by (apply Grows_try_catch; [apply Grows_bot_reply|apply Grows_console_error]).
    destruct (HG (after_own_message w sid s room content))
      as (_ & _ & _ & _ & [ms Hm] & [es He]).
    exists ms, es. rewrite Hm, He. simpl. by rewrite <- !app_assoc.
Qed.

Lemma send_validation_witness :
  Client.handleSubmit "  " "general" true = [] ∧
  ∃ ms es,
    messages (db (exec (handle env_unconfigured
                          (FromClient "s1" (Client.chatMessage "general" " "))) w_lobby))
    = messages (db w_lobby) ++ own_message w_lobby (mkSocket alice {["s1"]}) "general" " " :: ms ∧
    emitted (exec (handle env_unconfigured
                     (FromClient "s1" (Client.chatMessage "general" " "))) w_lobby)
    = emitted w_lobby
      ++ fanout_emissions w_lobby "s1" (mkSocket alice {["s1"]}) "general"
           (own_data w_lobby (mkSocket alice {["s1"]}) " ") ++ es.
Proof.
  destruct (send_validation env_unconfigured) as [Hclient Hserver].
  split.
  - apply Hclient. reflexivity.
  - apply (Hserver w_lobby "s1" (mkSocket alice {["s1"]}) "general" " ").
    + vm_compute. reflexivity.
    + intros [H|H]; vm_compute in H; discriminate.
Defined.

(** ** The assistant *)


Lemma user_findUnique_Some (name : string) (d : database) (u : User) :
  user_findUnique name d = Some u → user_username u = name ∧ u ∈ users d.
Proof.
  unfold user_findUnique. intros H. apply find_some in H as [Hin Hb].
  split; [by apply bool_decide_eq_true in Hb|by apply list_elem_of_In].
Qed.




Example userPrompt_every_occurrence : userPrompt "@bot say @BOT hi" = "say  hi".
Proof. reflexivity. Qed.




(** ** The assistant's identity *)









(** ** Disconnecting *)

(** Dispatching the disconnect of a connected socket runs the listener. *)
Lemma handle_disconnect (env : environment) (w : world) (sid : string) (s : socket) :
  sockets w !! sid = Some s →
  handle env (Disconnect sid) w = on_disconnect sid s w.
Proof. intros Hs. unfold handle, mbind, M_bind, gets. simpl. by rewrite Hs. Qed.

(** The world a disconnect leaves. *)
Lemma on_disconnect_run (w : world) (sid : string) (s : socket) :
  on_disconnect sid s w
  = (Ok (),
     log_emission
       (mkEmission Broadcast
          (updateUserList (JsMap.keys (JsMap.delete (sock_username s) (userSockets w))))
          (dom (delete sid (sockets w))))
       (with_userSockets (JsMap.delete (sock_username s)) (with_sockets (delete sid) w))).
Proof. reflexivity. Qed.

(** C8, counterexample: bob's older socket [s2] disconnects while the
    registry maps bob to his newer socket [s3], which stays connected; the
    entry is removed all the same. *)
Lemma stale_disconnect_unregisters_reconnect :
  JsMap.get "bob" (userSockets w_reconnect) = Some "s3" ∧
  is_Some (sockets (exec (handle env_unconfigured (Disconnect "s2")) w_reconnect) !! "s3") ∧
  JsMap.get "bob" (userSockets (exec (handle env_unconfigured (Disconnect "s2")) w_reconnect))
    = None ∧
  ¬ unregister_guarded env_unconfigured w_reconnect "s2" "bob".
Proof.
  split_and!.
  - reflexivity.
  - vm_compute. eauto.
  - reflexivity.
  - intros [H _]. discriminate H. split; [vm_compute; eauto|reflexivity].
Qed.

(** C8 (amended): the disconnect of a connection removes the entry of the
    connection's identity from the presence registry, whichever connection
    the entry maps to, and leaves the entries of the other identities as they
    are. *)
Theorem disconnect_unregisters (env : environment) (w : world) (sid : string) (s : socket) :
  sockets w !! sid = Some s →
  let w' := exec (handle env (Disconnect sid)) w in
  userSockets w' = JsMap.delete (sock_username s) (userSockets w) ∧
  JsMap.get (sock_username s) (userSockets w') = None ∧
  (∀ name, name ≠ sock_username s →
     JsMap.get name (userSockets w') = JsMap.get name (userSockets w)).
Proof.
  intros Hs w'. subst w'. unfold exec.
  rewrite (handle_disconnect _ _ _ s) by done. rewrite on_disconnect_run. simpl.
  split_and!; [done|apply JsMap_get_delete_eq|].
  intros name Hne. by apply JsMap_get_delete_ne.
Qed.

Lemma disconnect_unregisters_witness :
  JsMap.get "bob" (userSockets (exec (handle env_unconfigured (Disconnect "s3")) w_reconnect))
  = None.
Proof.
  apply (disconnect_unregisters env_unconfigured w_reconnect "s3" (mkSocket bob {["s3"]})).
  vm_compute. reflexivity.
Defined.

(** ** Disconnecting while typing *)

(** C7, counterexample: bob has received alice's typing notification; when
    alice disconnects, bob receives the new user list and no stop-typing
    notification. *)
Lemma disconnect_emits_no_stop_typing :
  typing "alice" ∈ received "s2" (emitted w_typing) ∧
  received "s2" (new_emissions (handle env_unconfigured (Disconnect "s1")) w_typing)
    = [updateUserList ["bob"]] ∧
  ¬ stop_typing_on_disconnect env_unconfigured w_typing "s1" "alice" "s2".
Proof.
  split_and!.
  - vm_compute. repeat constructor.
  - vm_compute. reflexivity.
  - unfold stop_typing_on_disconnect. vm_compute. intros H.
    apply list_elem_of_singleton in H. discriminate.
Qed.

(** C7 (amended): the disconnect of a connection emits one event, the
    presence snapshot, to every socket that remains connected; the snapshot
    no longer includes the identity of the connection; no stop-typing
    notification is emitted to anyone. *)
Theorem disconnect_presence (env : environment) (w : world) (sid : string) (s : socket) :
  sockets w !! sid = Some s →
  let es := new_emissions (handle env (Disconnect sid)) w in
  let names := JsMap.keys (JsMap.delete (sock_username s) (userSockets w)) in
  es = [mkEmission Broadcast (updateUserList names) (dom (delete sid (sockets w)))] ∧
  (sock_username s ∉ names) ∧
  (∀ peer name, stopTyping name ∉ received peer es).
Proof.
  intros Hs es names.
  assert (es = [mkEmission Broadcast (updateUserList names) (dom (delete sid (sockets w)))])
    as ->.
  { subst es. apply new_emissions_app. unfold exec.
    rewrite (handle_disconnect _ _ _ s) by done. by rewrite on_disconnect_run. }
  split_and!; [done|apply JsMap_keys_delete|].
  intros peer name. unfold received. simpl.
  case_bool_decide; simpl; [|apply not_elem_of_nil].
  intros Hin. apply list_elem_of_singleton in Hin. discriminate.
Qed.

Lemma disconnect_presence_witness :
  "alice" ∉ JsMap.keys (JsMap.delete "alice" (userSockets w_typing)).
Proof.
  apply (disconnect_presence env_unconfigured w_typing "s1" (mkSocket alice {["s1"; "general"]})).
  vm_compute. reflexivity.
Defined.

(** ** Joining rooms *)

(** The [joinRoom] listener adds the room to the rooms of the socket and
    takes none away. *)
Lemma on_joinRoom_rooms (env : environment) (w : world) (sid : string) (s : socket)
    (room : string) :
  sockets (exec (on_joinRoom env sid s room) w)
  = <[sid := mkSocket (sock_user s) (sock_rooms s ∪ {[room]})]> (sockets w).
Proof.
  unfold exec, on_joinRoom, mbind at 1, M_bind, modify, try_catch, mbind, M_bind, prisma.
  simpl. destruct (db_fails env _); [done|].
  destruct (message_findMany room (db w)); done.
Qed.


(** ** Fan-out *)

Lemma elem_of_membersOf (socks : gmap string socket) (room sid : string) :
  sid ∈ membersOf socks room ↔ ∃ s, socks !! sid = Some s ∧ room ∈ sock_rooms s.
Proof.
  unfold membersOf. rewrite elem_of_dom. unfold is_Some.
  setoid_rewrite map_lookup_filter_Some. naive_solver.
Qed.

(** A message of a channel is emitted once, to the room, and reaches the
    sockets that are in the room at that moment. *)
Lemma channel_fanout (w : world) (sid : string) (s : socket) (room : string) (m : messageData) :
  is_direct room = false →
  fanout_emissions w sid s room m
  = [mkEmission (ToRoom room) (chatMessage m) (membersOf (sockets w) room)].
Proof. unfold is_direct, fanout_emissions. by intros ->. Qed.

(** In the direct room of the sender and another name, both without hyphen
    and colon, the message goes to the socket the registry has for the other
    name, when it has one, and then to the sender. *)
Lemma direct_fanout_plain_names (w : world) (sid : string) (s : socket) (other : string)
    (m : messageData) :
  sock_username s ≠ other →
  Js.contains "-" (sock_username s) = false → Js.contains "-" other = false →
  Js.contains ":" (sock_username s) = false → Js.contains ":" other = false →
  fanout_emissions w sid s (canonicalDirectRoom (sock_username s) other) m
  = match JsMap.get other (userSockets w) with
    | Some (String c r) =>
        [mkEmission (ToRoom (String c r)) (chatMessage m) (membersOf (sockets w) (String c r))]
    | _ => []
    end ++ [mkEmission (ToSocket sid) (chatMessage m) {[sid]}].
Proof.
  intros Hne Hh1 Hh2 Hc1 Hc2. unfold fanout_emissions.
  fold (is_direct (canonicalDirectRoom (sock_username s) other)).
  rewrite canonicalDirectRoom_direct, split_canonicalDirectRoom by done.
  assert (resolved_recipient (userSockets w) (sock_username s)
            (getDMRoomName (sock_username s) other)
          = JsMap.get other (userSockets w)) as ->; [|done].
  unfold resolved_recipient, Js.find.
  destruct (split_getDMRoomName (sock_username s) other Hh1 Hh2) as [-> | ->]; simpl.
  - rewrite bool_decide_eq_true_2 by done. simpl.
    rewrite bool_decide_eq_false_2 by done. done.
  - rewrite bool_decide_eq_false_2 by done. done.
Qed.

(** C4: alice sends in the direct room she shares with bob-smith while
    bob-smith, bob and carol are online.  The server takes [bob] for the
    other name of [dm:alice-bob-smith]: the message reaches bob, who is not
    in the conversation, and does not reach bob-smith. *)
Theorem direct_message_hyphenated_name :
  let room := canonicalDirectRoom "alice" "bob-smith" in
  let es :=
    new_emissions (handle env_unconfigured (FromClient "s1" (Client.chatMessage room "hi")))
      w_direct in
  let hi := chatMessage (mkMessageData "hi" "alice" 100) in
  room = "dm:alice-bob-smith" ∧
  JsMap.get "bob-smith" (userSockets w_direct) = Some "s2" ∧
  JsMap.get "bob" (userSockets w_direct) = Some "s3" ∧
  em_target <$> es = [ToRoom "s3"; ToSocket "s1"] ∧
  received "s1" es = [hi] ∧
  received "s2" es = [] ∧
  received "s3" es = [hi] ∧
  received "s4" es = [].
Proof. split_and!; vm_compute; reflexivity. Qed.

(** ** Worlds the server can reach *)

Lemma grows_well_formed (w w' : world) : grows w w' → well_formed w → well_formed w'.
Proof.
  intros (Hu & Hs & _) [H1 H2]. unfold well_formed. rewrite Hu, Hs. done.
Qed.

Lemma Grows_fanout (sid : string) (s : socket) (room : string) (m : messageData) :
  Grows (fanout sid s room m).
Proof.
  intros w. rewrite fanout_run. unfold grows. simpl.
  split_and!; try done; try (exists []; by rewrite app_nil_r). by eexists.
Qed.

Lemma Grows_on_chatMessage (env : environment) (sid : string) (s : socket)
    (room content : string) :
  Grows (on_chatMessage env sid s room content).
Proof.
  unfold on_chatMessage. apply Grows_try_catch; [|auto with grows].
  apply Grows_bind; [auto with grows|]. intros t.
  apply Grows_bind; [auto with grows|]. intros msg.
  apply Grows_bind; [apply Grows_fanout|]. intros _. apply Grows_bot_reply.
Qed.

Lemma db_grows_findMany (room : string) :
  db_grows (λ d, r ← message_findMany room d; Some (r, d)).
Proof.
  intros d a d'. destruct (message_findMany room d); simpl; [|done].
  intros [= _ <-]. split; exists []; by rewrite app_nil_r.
Qed.

Lemma well_formed_initial (d : database) (t : nat) : well_formed (initial_world d t).
Proof. split; [done|]. intros sid s. simpl. by rewrite lookup_empty. Qed.

Lemma well_formed_connection (w : world) (sid : string) (user : jwt_user) :
  sockets w !! sid = None → well_formed w → well_formed (exec (on_connection sid user) w).
Proof.
  intros Hfresh [H1 H2]. split; simpl.
  - intros name sid'. destruct (decide (jwt_username user = name)) as [<-|Hne].
    + rewrite JsMap_get_set_eq. intros [= <-]. rewrite lookup_insert_eq. eauto.
    + rewrite JsMap_get_set_ne by done. intros Hget.
      destruct (H1 _ _ Hget) as (s & Hs & Hn).
      rewrite lookup_insert_ne by congruence. eauto.
  - intros sid' s. destruct (decide (sid = sid')) as [<-|Hne].
    + rewrite lookup_insert_eq. intros [= <-]. simpl. set_solver.
    + rewrite lookup_insert_ne by done. apply H2.
Qed.

Lemma well_formed_joinRoom (env : environment) (w : world) (sid : string) (s : socket)
    (room : string) :
  sockets w !! sid = Some s → well_formed w →
  well_formed (exec (on_joinRoom env sid s room) w).
Proof.
  intros Hs [H1 H2].
  set (w1 := with_sockets (insert sid (mkSocket (sock_user s) (sock_rooms s ∪ {[room]}))) w).
  assert (well_formed w1) as Hw1.
  { split; simpl.
    - intros name sid' Hget. destruct (H1 _ _ Hget) as (s' & Hs' & Hn).
      destruct (decide (sid = sid')) as [<-|Hne].
      + rewrite lookup_insert_eq. eexists. split; [done|].
        rewrite Hs in Hs'. by injection Hs' as <-.
      + rewrite lookup_insert_ne by done. eauto.
    - intros sid' s'. destruct (decide (sid = sid')) as [<-|Hne].
      + rewrite lookup_insert_eq. intros [= <-]. simpl.
        apply elem_of_union. left. by apply H2.
      + rewrite lookup_insert_ne by done. apply H2. }
  eapply grows_well_formed; [|exact Hw1].
  assert (Grows (try_catch
            (rows ← prisma env (call_message_findMany room)
                      (λ d, r ← message_findMany room d; Some (r, d));
             emit (ToSocket sid)
               (loadHistory
                  (map (λ r, mkMessageData (message_content r.1) (user_username r.2)
                               (message_createdAt r.1)) rows)))
            (console_error "joinRoom"))) as HG.
  { apply Grows_try_catch; [|auto with grows].
    apply Grows_bind; [|auto with grows]. apply Grows_prisma, db_grows_findMany. }
  apply (HG w1).
Qed.

Lemma well_formed_disconnect (w : world) (sid : string) (s : socket) :
  sockets w !! sid = Some s → well_formed w → well_formed (exec (on_disconnect sid s) w).
Proof.
  intros Hs [H1 H2]. split; simpl.
  - intros name sid'. destruct (decide (sock_username s = name)) as [<-|Hne].
    + by rewrite JsMap_get_delete_eq.
    + rewrite JsMap_get_delete_ne by done. intros Hget.
      destruct (H1 _ _ Hget) as (s' & Hs' & Hn).
      assert (sid ≠ sid') by (intros <-; congruence).
      rewrite lookup_delete_ne by done. eauto.
  - intros sid' s' Hs'. apply lookup_delete_Some in Hs' as [_ Hs']. by apply H2.
Qed.

(** Every inbound event keeps the world well formed. *)
Lemma well_formed_handle (env : environment) (i : inbound) (w : world) :
  well_formed w → well_formed (exec (handle env i) w).
Proof.
  intros Hw. destruct i as [sid user|sid sig|sid|dt]; unfold exec, handle, mbind, M_bind, gets.
  - destruct (sockets w !! sid) eqn:Hs; [done|]. by apply well_formed_connection.
  - destruct (sockets w !! sid) as [s|] eqn:Hs; [|done].
    destruct sig as [room|room content|room|room].
    + by apply well_formed_joinRoom.
    + eapply grows_well_formed; [apply Grows_on_chatMessage|done].
    + eapply grows_well_formed; [apply Grows_emit|done].
    + eapply grows_well_formed; [apply Grows_emit|done].
  - destruct (sockets w !! sid) as [s|] eqn:Hs; [|done]. by apply well_formed_disconnect.
  - done.
Qed.

(** The worlds the server reaches from its start are well formed. *)
Theorem well_formed_run (env : environment) (events : list inbound) (w : world) :
  well_formed w → well_formed (run env events w).
Proof.
  unfold run. revert w. induction events as [|i events IH]; intros w Hw; simpl; [done|].
  apply IH. by apply well_formed_handle.
Qed.

(** X28: in a well-formed world, a direct message between two plain names is
    emitted to the other participant's socket exactly when the registry has
    the participant, and that emission reaches the socket (socket
    identifiers are not empty). *)
Theorem direct_message_reaches_participant (w : world) (sid : string) (s : socket)
    (other : string) (m : messageData) :
  well_formed w →
  sock_username s ≠ other →
  Js.contains "-" (sock_username s) = false → Js.contains "-" other = false →
  Js.contains ":" (sock_username s) = false → Js.contains ":" other = false →
  let es := fanout_emissions w sid s (canonicalDirectRoom (sock_username s) other) m in
  match JsMap.get other (userSockets w) with
  | Some rs =>
      rs ≠ "" →
      ∃ e, es = [e; mkEmission (ToSocket sid) (chatMessage m) {[sid]}] ∧
           em_target e = ToRoom rs ∧ em_event e = chatMessage m ∧ rs ∈ em_recipients e
  | None => es = [mkEmission (ToSocket sid) (chatMessage m) {[sid]}]
  end.
Proof.
  intros [H1 H2] Hne Hh1 Hh2 Hc1 Hc2 es. subst es.
  rewrite direct_fanout_plain_names by done.
  destruct (JsMap.get other (userSockets w)) as [rs|] eqn:Hget; [|done].
  destruct (H1 _ _ Hget) as (s' & Hs' & Hn).
  pose proof (H2 _ _ Hs') as Hown. intros Hrs.
  destruct rs as [|c r]; [done|].
  eexists. split; [reflexivity|]. simpl. split_and!; try done.
  apply elem_of_membersOf. eauto.
Qed.

(** ** The generation service *)

Lemma getAIResponse_run (env : environment) (prompt : string) (w : world) :
  ∃ reply w',
    getAIResponse env prompt w = (Ok reply, w') ∧
    reply ≠ "" ∧
    db w' = db w ∧ emitted w' = emitted w ∧ userSockets w' = userSockets w ∧
    sockets w' = sockets w ∧ now w' = now w ∧ db_calls w' = db_calls w ∧
    ai_calls w' = ai_calls w ++ [prompt] ∧
    (fetch_calls w' = fetch_calls w ∨ fetch_calls w' = fetch_calls w ++ [prompt]).
Proof.
  unfold getAIResponse, mbind, M_bind, modify. simpl.
  destruct (OPENAI_API_KEY env) as [[|c k]|].
  - eexists _, _. split; [reflexivity|]. simpl. split_and!; auto; done.
  - simpl. destruct (fetch_completion env prompt) as [| |[[|c' r]|]];
      (eexists _, _; split; [reflexivity|]; simpl; split_and!; auto; done).
  - eexists _, _. split; [reflexivity|]. simpl. split_and!; auto; done.
Qed.

(** X1: [getAIResponse] never throws and always returns a text that is not
    empty, whatever the service does; it changes neither the database nor
    the emissions, and makes at most one request to the service. *)
Theorem getAIResponse_always_replies (env : environment) (prompt : string) (w : world) :
  ∃ reply w',
    getAIResponse env prompt w = (Ok reply, w') ∧
    reply ≠ "" ∧
    db w' = db w ∧ emitted w' = emitted w ∧ userSockets w' = userSockets w ∧
    ai_calls w' = ai_calls w ++ [prompt] ∧
    (fetch_calls w' = fetch_calls w ∨ fetch_calls w' = fetch_calls w ++ [prompt]).
Proof.
  destruct (getAIResponse_run env prompt w)
    as (reply & w' & H1 & H2 & H3 & H4 & H5 & _ & _ & _ & H6 & H7).
  by exists reply, w'.
Qed.

(** X2: with a key configured and a service that answers with a text that is
    not empty, [getAIResponse] returns exactly that text, after one request
    carrying the prompt. *)
Theorem getAIResponse_relays_service (env : environment) (prompt answer : string) (w : world) :
  configured env →
  answer ≠ "" →
  fetch_completion env prompt = FetchOk (Some answer) →
  ∃ w', getAIResponse env prompt w = (Ok answer, w') ∧
        fetch_calls w' = fetch_calls w ++ [prompt] ∧
        ai_calls w' = ai_calls w ++ [prompt].
Proof.
  intros (c & k & Hkey) Hne Hfetch.
  unfold getAIResponse, mbind, M_bind, modify. simpl. rewrite Hkey. simpl. rewrite Hfetch.
  destruct answer as [|a r]; [done|]. eexists. split; [reflexivity|]. done.
Qed.

Lemma getAIResponse_relays_service_witness :
  ∃ w', getAIResponse
          (mkEnvironment (Some "sk-1") (λ _, FetchOk (Some "It is noon.")) (λ _, false)
             (λ _, "bot-hash"))
          "what time is it" w_general
        = (Ok "It is noon.", w') ∧
        fetch_calls w' = fetch_calls w_general ++ ["what time is it"] ∧
        ai_calls w' = ai_calls w_general ++ ["what time is it"].
Proof.
  apply getAIResponse_relays_service.
  - exists "s"%char, "k-1". reflexivity.
  - discriminate.
  - reflexivity.
Defined.

(** ** Listeners do not throw *)








Lemma getBotUser_outcome (env : environment) (w : world) :
  ∃ r w',
    getBotUser env w = (Ok r, w') ∧
    messages (db w') = messages (db w) ∧
    emitted w' = emitted w ∧
    sockets w' = sockets w ∧ now w' = now w ∧
    ((r = None ∧ console w' = console w ++ ["Error getting bot user:"] ∧ db w' = db w)
     ∨ (∃ b, r = Some b ∧ user_username b = "AI Bot" ∧ b ∈ users (db w')
             ∧ console w' = console w)).
Proof.
  unfold getBotUser, try_catch, mbind, M_bind, prisma, gets, query. simpl.
  destruct (db_fails env (length (db_calls w))); simpl.
  { eexists _, _. split; [reflexivity|]. simpl. split_and!; try done. by left. }
  destruct (user_findUnique "AI Bot" (db w)) as [b|] eqn:Hfind; simpl.
  { eexists _, _. split; [reflexivity|]. simpl. split_and!; try done.
    right. exists b. by destruct (user_findUnique_Some _ _ _ Hfind). }
  rewrite length_app, Nat.add_1_r.
  destruct (db_fails env (S (length (db_calls w)))); simpl.
  { eexists _, _. split; [reflexivity|]. simpl. split_and!; try done. by left. }
  unfold user_create. rewrite Hfind. simpl.
  eexists _, _. split; [reflexivity|]. simpl. split_and!; try done.
  right. eexists. split_and!; try done.
  apply elem_of_app. right. by apply list_elem_of_singleton.
Qed.





(** ** What handlers emit *)

Lemma EmitsOnly_ret {A} (P : emission → Prop) (a : A) : EmitsOnly P (mret a : M A).
Proof. intros w. exists []. by rewrite app_nil_r. Qed.

Lemma EmitsOnly_bind {A B} (P : emission → Prop) (m : M A) (f : A → M B) :
  EmitsOnly P m → (∀ a, EmitsOnly P (f a)) → EmitsOnly P (m ≫= f).
Proof.
  intros Hm Hf w. unfold mbind, M_bind. destruct (Hm w) as (es & He & HP).
  destruct (m w) as [[a|] w1]; simpl in *; [|eauto].
  destruct (Hf a w1) as (es' & He' & HP').
  exists (es ++ es'). rewrite He', He, app_assoc. split; [done|]. by apply Forall_app.
Qed.

Lemma EmitsOnly_try_catch {A} (P : emission → Prop) (m h : M A) :
  EmitsOnly P m → EmitsOnly P h → EmitsOnly P (try_catch m h).
Proof.
  intros Hm Hh w. unfold try_catch. destruct (Hm w) as (es & He & HP).
  destruct (m w) as [[a|] w1]; simpl in *; [eauto|].
  destruct (Hh w1) as (es' & He' & HP').
  exists (es ++ es'). rewrite He', He, app_assoc. split; [done|]. by apply Forall_app.
Qed.

Lemma EmitsOnly_silent {A} (P : emission → Prop) (m : M A) :
  (∀ w, emitted (m w).2 = emitted w) → EmitsOnly P m.
Proof. intros H w. exists []. by rewrite H, app_nil_r. Qed.

Lemma EmitsOnly_prisma {A} (P : emission → Prop) (env : environment) (c : db_call)
    (op : database → option (A * database)) :
  EmitsOnly P (prisma env c op).
Proof.
  apply EmitsOnly_silent. intros w. unfold prisma.
  destruct (db_fails env _); [done|]. by destruct (op (db w)) as [[a d]|].
Qed.

Lemma EmitsOnly_emit (P : emission → Prop) (t : target) (e : event) :
  (∀ rs, P (mkEmission t e rs)) → EmitsOnly P (emit t e).
Proof. intros H w. eexists [_]. split; [done|]. by constructor. Qed.

Lemma EmitsOnly_getAIResponse (P : emission → Prop) (env : environment) (p : string) :
  EmitsOnly P (getAIResponse env p).
Proof.
  apply EmitsOnly_silent. intros w.
  unfold getAIResponse, mbind, M_bind, modify. simpl.
  destruct (OPENAI_API_KEY env) as [[|c k]|]; try done. simpl.
  by destruct (fetch_completion env p) as [| |[[|c' r]|]].
Qed.

Lemma EmitsOnly_getBotUser (P : emission → Prop) (env : environment) :
  EmitsOnly P (getBotUser env).
Proof.
  unfold getBotUser. apply EmitsOnly_try_catch.
  - apply EmitsOnly_bind; [apply EmitsOnly_prisma|]. intros [b|]; [apply EmitsOnly_ret|].
    apply EmitsOnly_bind; [by apply EmitsOnly_silent|]. intros t.
    apply EmitsOnly_bind; [apply EmitsOnly_prisma|]. intros b. apply EmitsOnly_ret.
  - apply EmitsOnly_bind; [by apply EmitsOnly_silent|]. intros _. apply EmitsOnly_ret.
Qed.

(** The [chatMessage] listener emits [chatMessage] events only. *)
Lemma EmitsOnly_on_chatMessage (P : emission → Prop) (env : environment) (sid : string)
    (s : socket) (room content : string) :
  (∀ t m rs, P (mkEmission t (chatMessage m) rs)) →
  EmitsOnly P (on_chatMessage env sid s room content).
Proof.
  intros HP. unfold on_chatMessage.
  apply EmitsOnly_try_catch; [|by apply EmitsOnly_silent].
  apply EmitsOnly_bind; [by apply EmitsOnly_silent|]. intros t.
  apply EmitsOnly_bind; [apply EmitsOnly_prisma|]. intros msg.
  apply EmitsOnly_bind.
  - intros w. rewrite fanout_run. eexists. split; [reflexivity|].
    eapply Forall_impl; [apply fanout_emissions_event|].
    intros [t' e rs]. simpl. intros ->. apply HP.
  - intros _. unfold bot_reply.
    destruct (_ && _); [|apply EmitsOnly_ret].
    destruct (Js.truthy _); [|apply EmitsOnly_ret].
    apply EmitsOnly_bind; [apply EmitsOnly_getAIResponse|]. intros reply.
    apply EmitsOnly_bind; [apply EmitsOnly_getBotUser|]. intros [b|]; [|apply EmitsOnly_ret].
    apply EmitsOnly_bind; [by apply EmitsOnly_silent|]. intros t'.
    apply EmitsOnly_bind; [apply EmitsOnly_prisma|]. intros botMsg.
    apply EmitsOnly_emit. intros rs. apply HP.
Qed.

(** ** The presence registry over a run *)

Lemma no_snapshot_distinct (e : emission) : no_snapshot e → snapshot_distinct e.
Proof. unfold no_snapshot, snapshot_distinct. by destruct (em_event e). Qed.

Lemma on_joinRoom_split (env : environment) (sid : string) (s : socket) (room : string)
    (w : world) :
  on_joinRoom env sid s room w
  = joinRoom_history env sid room
      (with_sockets (insert sid (mkSocket (sock_user s) (sock_rooms s ∪ {[room]}))) w).
Proof. reflexivity. Qed.

Lemma Grows_joinRoom_history (env : environment) (sid room : string) :
  Grows (joinRoom_history env sid room).
Proof.
  apply Grows_try_catch; [|auto with grows].
  apply Grows_bind; [|auto with grows]. apply Grows_prisma, db_grows_findMany.
Qed.

Lemma EmitsOnly_joinRoom_history (P : emission → Prop) (env : environment) (sid room : string) :
  (∀ t h rs, P (mkEmission t (loadHistory h) rs)) →
  EmitsOnly P (joinRoom_history env sid room).
Proof.
  intros HP. apply EmitsOnly_try_catch; [|by apply EmitsOnly_silent].
  apply EmitsOnly_bind; [apply EmitsOnly_prisma|]. intros rows.
  apply EmitsOnly_emit. intros rs. apply HP.
Qed.

(** A handler that leaves the registry alone and emits no snapshot keeps
    the registry and the snapshots distinct. *)
Lemma distinct_preserved {A} (m : M A) (w : world) :
  Grows m → EmitsOnly no_snapshot m →
  registry_distinct w ∧ snapshots_distinct w →
  registry_distinct (exec m w) ∧ snapshots_distinct (exec m w).
Proof.
  intros HG HE [Hr Hs]. unfold registry_distinct, snapshots_distinct, exec in *.
  destruct (HG w) as (-> & _). destruct (HE w) as (es & -> & Hes).
  split; [done|]. apply Forall_app. split; [done|].
  eapply Forall_impl; [done|]. apply no_snapshot_distinct.
Qed.

Lemma distinct_handle (env : environment) (i : inbound) (w : world) :
  registry_distinct w ∧ snapshots_distinct w →
  registry_distinct (exec (handle env i) w) ∧ snapshots_distinct (exec (handle env i) w).
Proof.
  intros Hw. destruct i as [sid user|sid sig|sid|dt]; unfold exec, handle, mbind, M_bind, gets.
  - destruct (sockets w !! sid) eqn:Hs; [done|]. destruct Hw as [Hr Hsn].
    unfold registry_distinct, snapshots_distinct in *. simpl.
    pose proof (JsMap_keys_set_NoDup (jwt_username user) sid _ Hr) as Hnd.
    split; [done|]. apply Forall_app. split; [done|]. by constructor.
  - destruct (sockets w !! sid) as [s|] eqn:Hs; [|done].
    destruct sig as [room|room content|room|room].
    + rewrite on_joinRoom_split.
      apply (distinct_preserved (joinRoom_history env sid room));
        [apply Grows_joinRoom_history|by apply EmitsOnly_joinRoom_history|done].
    + apply (distinct_preserved (on_chatMessage env sid s room content));
        [apply Grows_on_chatMessage|by apply EmitsOnly_on_chatMessage|done].
    + apply (distinct_preserved (on_typing sid s room));
        [apply Grows_emit|by apply EmitsOnly_emit|done].
    + apply (distinct_preserved (on_stopTyping sid s room));
        [apply Grows_emit|by apply EmitsOnly_emit|done].
  - destruct (sockets w !! sid) as [s|] eqn:Hs; [|done]. destruct Hw as [Hr Hsn].
    unfold registry_distinct, snapshots_distinct in *. simpl.
    pose proof (JsMap_keys_delete_NoDup (sock_username s) _ Hr) as Hnd.
    split; [done|]. apply Forall_app. split; [done|]. by constructor.
  - done.
Qed.

Lemma distinct_run (env : environment) (events : list inbound) (w : world) :
  registry_distinct w ∧ snapshots_distinct w →
  registry_distinct (run env events w) ∧ snapshots_distinct (run env events w).
Proof.
  unfold run. revert w. induction events as [|i events IH]; intros w Hw; simpl; [done|].
  apply IH. by apply distinct_handle.
Qed.

(** X5: whatever events the server receives from its start, the registry
    holds each name once and every presence snapshot it has broadcast lists
    each name once, also when a user is connected several times. *)
Theorem presence_snapshots_distinct (env : environment) (events : list inbound)
    (d : database) (t : nat) :
  registry_distinct (run env events (initial_world d t)) ∧
  snapshots_distinct (run env events (initial_world d t)).
Proof. apply distinct_run. split; [apply NoDup_nil_2|apply Forall_nil_2]. Qed.

(** Dispatching the connection of a fresh socket runs the listener. *)
Lemma handle_connection (env : environment) (w : world) (sid : string) (user : jwt_user) :
  sockets w !! sid = None →
  handle env (Connection sid user) w = on_connection sid user w.
Proof. intros Hs. unfold handle, mbind, M_bind, gets. simpl. by rewrite Hs. Qed.

(** X6: a new connection registers its identity under its socket, replacing
    the socket the identity had (the last connection wins) and leaving the
    other identities and every connected socket as they are; the snapshot is
    broadcast to all connected sockets, the new one included, and lists the
    identity. *)
Theorem connection_registers (env : environment) (w : world) (sid : string) (user : jwt_user) :
  sockets w !! sid = None →
  let w' := exec (handle env (Connection sid user)) w in
  JsMap.get (jwt_username user) (userSockets w') = Some sid ∧
  (∀ name, name ≠ jwt_username user →
     JsMap.get name (userSockets w') = JsMap.get name (userSockets w)) ∧
  (∀ sid' s', sockets w !! sid' = Some s' → sockets w' !! sid' = Some s') ∧
  sockets w' !! sid = Some (mkSocket user {[sid]}) ∧
  new_emissions (handle env (Connection sid user)) w
  = [mkEmission Broadcast (updateUserList (JsMap.keys (userSockets w')))
       ({[sid]} ∪ dom (sockets w))] ∧
  jwt_username user ∈ JsMap.keys (userSockets w').
Proof.
  intros Hfresh w'.
  assert (w' = exec (on_connection sid user) w) as Hw'
    by (subst w'; unfold exec; by rewrite handle_connection).
  split_and!.
  - rewrite Hw'. simpl. apply JsMap_get_set_eq.
  - intros name Hne. rewrite Hw'. simpl. by apply JsMap_get_set_ne.
  - intros sid' s' Hs'. rewrite Hw'. simpl. rewrite lookup_insert_ne; [done|congruence].
  - rewrite Hw'. simpl. apply lookup_insert_eq.
  - apply new_emissions_app. fold w'. rewrite Hw'. simpl. by rewrite dom_insert_L.
  - rewrite Hw'. simpl.
    destruct (decide (jwt_username user ∈ JsMap.keys (JsMap.set (jwt_username user) sid (userSockets w))))
      as [?|Hn]; [done|].
    apply JsMap_get_None in Hn. by rewrite JsMap_get_set_eq in Hn.
Qed.

Lemma connection_registers_witness :
  JsMap.get "bob" (userSockets (exec (handle env_unconfigured (Connection "s9" bob)) w_general))
  = Some "s9".
Proof.
  apply (connection_registers env_unconfigured w_general "s9" bob). reflexivity.
Defined.

(** X7: when an identity that is not connected connects and then
    disconnects, the registry, the connected sockets and the database are
    as they were before. *)
Theorem connect_disconnect_round_trip (env : environment) (w : world) (sid : string)
    (user : jwt_user) :
  sockets w !! sid = None →
  JsMap.get (jwt_username user) (userSockets w) = None →
  let w' := run env [Connection sid user; Disconnect sid] w in
  userSockets w' = userSockets w ∧ sockets w' = sockets w ∧ db w' = db w.
Proof.
  intros Hfresh Hname w'.
  assert (w' = exec (on_disconnect sid (mkSocket user {[sid]}))
                 (exec (on_connection sid user) w)) as ->.
  { subst w'. unfold run. cbn [foldl]. unfold exec.
    rewrite handle_connection by done.
    by rewrite (handle_disconnect _ _ _ (mkSocket user {[sid]}))
      by (simpl; apply lookup_insert_eq). }
  simpl. split_and!; [by apply JsMap_delete_set|by rewrite delete_insert_id|done].
Qed.

Lemma connect_disconnect_round_trip_witness :
  userSockets (run env_unconfigured [Connection "s9" carol; Disconnect "s9"] w_general)
  = userSockets w_general.
Proof.
  apply (connect_disconnect_round_trip env_unconfigured w_general "s9" carol); reflexivity.
Defined.

(** ** History *)

Lemma insert_by_createdAt_perm (m : Message) (l : list Message) :
  insert_by_createdAt m l ≡ₚ m :: l.
Proof.
  induction l as [|m' l IH]; simpl; [done|].
  case_bool_decide; [done|]. rewrite IH. apply Permutation_swap.
Qed.

Lemma insert_by_createdAt_sorted (m : Message) (l : list Message) :
  StronglySorted by_createdAt l → StronglySorted by_createdAt (insert_by_createdAt m l).
Proof.
  induction l as [|m' l IH]; simpl; intros Hs.
  - repeat constructor.
  - apply StronglySorted_cons in Hs as [Hall Hs].
    case_bool_decide as Hlt.
    + apply StronglySorted_cons. split.
      * constructor; [unfold by_createdAt; lia|].
        eapply Forall_impl; [exact Hall|]. unfold by_createdAt. intros x. lia.
      * apply StronglySorted_cons. done.
    + apply StronglySorted_cons. split; [|by apply IH].
      rewrite insert_by_createdAt_perm. constructor; [unfold by_createdAt; lia|done].
Qed.

Lemma sort_by_createdAt (acc rows : list Message) :
  StronglySorted by_createdAt acc →
  StronglySorted by_createdAt (foldl (λ acc m, insert_by_createdAt m acc) acc rows) ∧
  foldl (λ acc m, insert_by_createdAt m acc) acc rows ≡ₚ acc ++ rows.
Proof.
  revert acc. induction rows as [|m rows IH]; intros acc Hacc; simpl.
  - by rewrite app_nil_r.
  - destruct (IH (insert_by_createdAt m acc)) as [Hs Hp];
      [by apply insert_by_createdAt_sorted|].
    split; [done|]. rewrite Hp, insert_by_createdAt_perm. simpl.
    apply Permutation_middle.
Qed.

Lemma user_by_id_Some (id : nat) (d : database) (u : User) :
  user_by_id id d = Some u → user_id u = id ∧ u ∈ users d.
Proof.
  unfold user_by_id. intros H. apply find_some in H as [Hin Hb].
  split; [by apply bool_decide_eq_true in Hb|by apply list_elem_of_In].
Qed.

Lemma List_filter_bool_decide {A} (P : A → Prop) `{∀ x, Decision (P x)} (l : list A) :
  List.filter (λ x, bool_decide (P x)) l = filter P l.
Proof.
  induction l as [|x l IH]; simpl; [done|].
  case_bool_decide.
  - rewrite filter_cons_True by done. by rewrite IH.
  - by rewrite filter_cons_False by done.
Qed.

Lemma message_findMany_rows (room : string) (d : database) :
  authors_known d →
  ∃ rows,
    message_findMany room d = Some rows ∧
    rows.*1 ≡ₚ filter (λ m, message_room m = room) (messages d) ∧
    StronglySorted by_createdAt rows.*1 ∧
    Forall (λ r, user_id r.2 = message_userId r.1 ∧ r.2 ∈ users d) rows.
Proof.
  intros Hfk. unfold message_findMany.
  set (rows0 := List.filter _ (messages d)).
  set (sorted := foldl _ [] rows0).
  destruct (sort_by_createdAt [] rows0) as [Hs Hp]; [constructor|]. fold sorted in Hs, Hp.
  simpl in Hp.
  assert (rows0 = filter (λ m, message_room m = room) (messages d)) as Hrows0
    by apply List_filter_bool_decide.
  assert (Forall (λ m, m ∈ messages d) sorted) as Hin.
  { apply Forall_forall. intros m Hm. rewrite Hp, Hrows0 in Hm.
    by apply list_elem_of_filter in Hm as [_ ?]. }
  destruct (mapM (λ m, u ← user_by_id (message_userId m) d; Some (m, u)) sorted)
    as [rows|] eqn:Hm.
  - exists rows. split; [done|]. apply mapM_Some in Hm.
    assert (rows.*1 = sorted ∧
            Forall (λ r, user_id r.2 = message_userId r.1 ∧ r.2 ∈ users d) rows) as [Hfst Hall].
    { clear -Hm. induction Hm as [|m r l k Hf _ [IH1 IH2]]; [done|].
      destruct (user_by_id (message_userId m) d) as [u|] eqn:Hu; simpl in Hf; [|done].
      injection Hf as <-. apply user_by_id_Some in Hu as [Hid Hu].
      split; [rewrite fmap_cons; simpl; by rewrite IH1|]. by constructor. }
    rewrite Hfst. split_and!; [by rewrite Hp, Hrows0|done|done].
  - apply mapM_None in Hm. exfalso. apply Exists_exists in Hm as (m & Hm & Hnone).
    rewrite Forall_forall in Hin. destruct (Hfk m (Hin m Hm)) as [u Hu].
    rewrite Hu in Hnone. done.
Qed.



(** Dispatching a signal of a connected socket. *)
Lemma handle_signal (env : environment) (w : world) (sid : string) (s : socket)
    (sig : Client.signal) :
  sockets w !! sid = Some s →
  handle env (FromClient sid sig) w
  = match sig with
    | Client.joinRoom room => on_joinRoom env sid s room w
    | Client.chatMessage room content => on_chatMessage env sid s room content w
    | Client.typing room => on_typing sid s room w
    | Client.stopTyping room => on_stopTyping sid s room w
    end.
Proof. intros Hs. unfold handle, mbind, M_bind, gets. simpl. rewrite Hs. by destruct sig. Qed.

(** X9: with the storage up and every author a user, joining a room puts
    the socket in the room, keeps the rooms it was in, and sends the room's
    history, as the query returns it, to the joining socket only; the
    database is not changed. *)
Theorem joinRoom_sends_history (env : environment) (w : world) (sid : string) (s : socket)
    (room : string) :
  sockets w !! sid = Some s →
  db_fails env (length (db_calls w)) = false →
  authors_known (db w) →
  let w' := exec (handle env (FromClient sid (Client.joinRoom room))) w in
  ∃ rows,
    message_findMany room (db w) = Some rows ∧
    new_emissions (handle env (FromClient sid (Client.joinRoom room))) w
    = [mkEmission (ToSocket sid) (loadHistory (history_entry <$> rows)) {[sid]}] ∧
    sockets w' = <[sid := mkSocket (sock_user s) (sock_rooms s ∪ {[room]})]> (sockets w) ∧
    db w' = db w ∧ userSockets w' = userSockets w.
Proof.
  intros Hs Hdb Hfk w'.
  destruct (message_findMany_rows room (db w) Hfk) as (rows & Hrows & _).
  exists rows. split; [done|].
  assert (handle env (FromClient sid (Client.joinRoom room)) w
          = (Ok (),
             log_emission
               (mkEmission (ToSocket sid) (loadHistory (history_entry <$> rows)) {[sid]})
               (log_db_call (call_message_findMany room)
                  (with_sockets
                     (insert sid (mkSocket (sock_user s) (sock_rooms s ∪ {[room]}))) w))))
    as Hrun.
  { rewrite (handle_signal _ _ _ s) by done.
    unfold on_joinRoom, mbind at 1, M_bind, modify, try_catch, mbind, M_bind, prisma.
    simpl. rewrite Hdb, Hrows. simpl. by destruct w as [? ? [??] ? ? ? ? ? ?]. }
  split_and!.
  - apply new_emissions_app. unfold exec. by rewrite Hrun.
  - subst w'. unfold exec. by rewrite Hrun.
  - subst w'. unfold exec. by rewrite Hrun.
  - subst w'. unfold exec. by rewrite Hrun.
Qed.

Lemma joinRoom_sends_history_witness :
  ∃ rows,
    message_findMany "random" (db w_general) = Some rows ∧
    new_emissions (handle env_unconfigured (FromClient "s1" (Client.joinRoom "random")))
      w_general
    = [mkEmission (ToSocket "s1") (loadHistory (history_entry <$> rows)) {["s1"]}].
Proof.
  destruct (joinRoom_sends_history env_unconfigured w_general "s1"
              (mkSocket alice {["s1"; "general"]}) "random") as (rows & H1 & H2 & _).
  - vm_compute. reflexivity.
  - reflexivity.
  - intros m Hm. vm_compute in Hm. by apply elem_of_nil in Hm.
  - exists rows. split; [exact H1|exact H2].
Defined.

(** X10: when the storage throws on the history query, the socket has
    joined the room all the same, nothing is emitted (no history, no error
    event), and the failure is logged on the console. *)
Theorem joinRoom_storage_failure (env : environment) (w : world) (sid : string) (s : socket)
    (room : string) :
  sockets w !! sid = Some s →
  db_fails env (length (db_calls w)) = true →
  let w' := exec (handle env (FromClient sid (Client.joinRoom room))) w in
  sockets w' = <[sid := mkSocket (sock_user s) (sock_rooms s ∪ {[room]})]> (sockets w) ∧
  emitted w' = emitted w ∧
  console w' = console w ++ ["joinRoom"] ∧
  db w' = db w.
Proof.
  intros Hs Hdb w'. subst w'. unfold exec. rewrite (handle_signal _ _ _ s) by done.
  unfold on_joinRoom, mbind at 1, M_bind, modify, try_catch, mbind, M_bind, prisma.
  simpl. by rewrite Hdb.
Qed.

Lemma joinRoom_storage_failure_witness :
  emitted (exec (handle env_storage_down (FromClient "s1" (Client.joinRoom "random"))) w_general)
  = emitted w_general.
Proof.
  apply (joinRoom_storage_failure env_storage_down w_general "s1"
           (mkSocket alice {["s1"; "general"]}) "random").
  - vm_compute. reflexivity.
  - reflexivity.
Defined.

(** ** Typing notifications *)

(** X11: a typing signal for a room is relayed to every socket in the room
    except the sender, and to nobody else; so is a stop-typing signal.  The
    sender need not be in the room. *)
Theorem typing_reaches_others (env : environment) (w : world) (sid : string) (s : socket)
    (room peer : string) :
  sockets w !! sid = Some s →
  received peer (new_emissions (handle env (FromClient sid (Client.typing room))) w)
  = (if bool_decide (peer ≠ sid ∧ peer ∈ membersOf (sockets w) room)
     then [typing (sock_username s)] else []) ∧
  received peer (new_emissions (handle env (FromClient sid (Client.stopTyping room))) w)
  = (if bool_decide (peer ≠ sid ∧ peer ∈ membersOf (sockets w) room)
     then [stopTyping (sock_username s)] else []).
Proof.
  intros Hs.
  assert (∀ e, received peer [mkEmission (ToRoomExcept room sid) e
                                 (membersOf (sockets w) room ∖ {[sid]})]
               = if bool_decide (peer ≠ sid ∧ peer ∈ membersOf (sockets w) room)
                 then [e] else []) as Hrec.
  { intros e. unfold received. simpl.
    destruct (decide (peer ≠ sid ∧ peer ∈ membersOf (sockets w) room)) as [Hy|Hn].
    - rewrite !bool_decide_eq_true_2; [done|done|].
      destruct Hy as [Hne Hin]. apply elem_of_difference. split; [done|].
      by rewrite elem_of_singleton.
    - rewrite !bool_decide_eq_false_2; [done|done|].
      intros [Hin Hne]%elem_of_difference. apply Hn. split; [|done].
      intros ->. by apply Hne, elem_of_singleton. }
  split.
  - rewrite (new_emissions_app _ _
               [mkEmission (ToRoomExcept room sid) (typing (sock_username s))
                  (membersOf (sockets w) room ∖ {[sid]})]); [apply Hrec|].
    unfold exec. by rewrite (handle_signal _ _ _ s).
  - rewrite (new_emissions_app _ _
               [mkEmission (ToRoomExcept room sid) (stopTyping (sock_username s))
                  (membersOf (sockets w) room ∖ {[sid]})]); [apply Hrec|].
    unfold exec. by rewrite (handle_signal _ _ _ s).
Qed.

Lemma typing_reaches_others_witness :
  received "s2" (new_emissions (handle env_unconfigured (FromClient "s1" (Client.typing "general")))
                   w_general)
  = (if bool_decide ("s2" ≠ "s1" ∧ "s2" ∈ membersOf (sockets w_general) "general")
     then [typing "alice"] else []).
Proof.
  apply (typing_reaches_others env_unconfigured w_general "s1"
           (mkSocket alice {["s1"; "general"]}) "general" "s2").
  vm_compute. reflexivity.
Defined.

(** ** The assistant's reply, whatever the service answers *)

Lemma bot_reply_unfold (env : environment) (room content : string) :
  bot_reply env room content
  = if Js.startsWith (Js.toLowerCase content) "@bot" && negb (Js.startsWith room "dm:")
    then if Js.truthy (userPrompt content)
         then aiReply ← getAIResponse env (userPrompt content); bot_post env room aiReply
         else mret ()
    else mret ().
Proof. reflexivity. Qed.




(** ** When the assistant stays out *)

Lemma bot_reply_skipped (env : environment) (room content : string) :
  is_direct room = true ∨ Js.startsWith (Js.toLowerCase content) "@bot" = false →
  bot_reply env room content = mret ().
Proof.
  unfold is_direct, bot_reply. intros [-> | ->]; [|done].
  by rewrite andb_false_r.
Qed.

(** The listener when the assistant part does nothing. *)
Lemma on_chatMessage_without_reply (env : environment) (w : world) (sid : string)
    (s : socket) (room content : string) :
  bot_reply env room content = mret () →
  on_chatMessage env sid s room content w
  = if bool_decide (store_fails env w s)
    then (Ok (), log_console "chatMessage"
                   (log_db_call (call_message_create content room (jwt_id (sock_user s))) w))
    else (Ok (), after_own_message w sid s room content).
Proof.
  intros Hbot. destruct (store_fails_dec env w s) as [Hfail|[Hdb Hu]].
  - rewrite bool_decide_eq_true_2 by done. by apply on_chatMessage_not_stored.
  - rewrite bool_decide_eq_false_2.
    + rewrite on_chatMessage_stored by done. by rewrite Hbot.
    + intros [?|Hn]; [congruence|]. rewrite Hn in Hu. by destruct Hu.
Qed.

(** X13: in a direct room, or when the content does not begin with [@bot]
    (the token further on in the text does not count), the assistant is
    not invoked: no call to it or to the service, no user created, and
    nothing stored or emitted besides the user's own message. *)
Theorem assistant_not_invoked (env : environment) (w : world)
    (sid : string) (s : socket) (room content : string) :
  is_direct room = true ∨ Js.startsWith (Js.toLowerCase content) "@bot" = false →
  let w' := exec (on_chatMessage env sid s room content) w in
  ai_calls w' = ai_calls w ∧
  fetch_calls w' = fetch_calls w ∧
  users (db w') = users (db w) ∧
  db_calls w' = db_calls w ++ [call_message_create content room (jwt_id (sock_user s))] ∧
  (messages (db w') = messages (db w)
   ∨ messages (db w') = messages (db w) ++ [own_message w s room content]) ∧
  Forall (λ e, em_event e = chatMessage (own_data w s content))
    (new_emissions (on_chatMessage env sid s room content) w).
Proof.
  intros Hcase w'. pose proof (bot_reply_skipped env room content Hcase) as Hbot.
  pose proof (on_chatMessage_without_reply env w sid s room content Hbot) as Hrun.
  case_bool_decide.
  - assert (w' = log_console "chatMessage"
                   (log_db_call (call_message_create content room (jwt_id (sock_user s))) w))
      as -> by (subst w'; unfold exec; by rewrite Hrun).
    rewrite (new_emissions_app _ _ []);
      [|unfold exec; rewrite Hrun; simpl; by rewrite app_nil_r].
    simpl. split_and!; auto.
  - assert (w' = after_own_message w sid s room content)
      as -> by (subst w'; unfold exec; by rewrite Hrun).
    rewrite (new_emissions_app _ _ (fanout_emissions w sid s room (own_data w s content)));
      [|unfold exec; by rewrite Hrun].
    simpl. split_and!; auto. apply fanout_emissions_event.
Qed.

Lemma assistant_not_invoked_witness :
  ai_calls (exec (on_chatMessage env_unconfigured "s1" (mkSocket alice {["s1"; "general"]})
                    "general" "hello @bot") w_general)
  = ai_calls w_general.
Proof.
  apply (assistant_not_invoked env_unconfigured w_general "s1"
           (mkSocket alice {["s1"; "general"]}) "general" "hello @bot").
  right. reflexivity.
Defined.

(** ** Nothing is delivered that is not stored *)

Lemma stored_mono (d d' : database) (e : emission) :
  (∀ m, m ∈ messages d → m ∈ messages d') → stored d e → stored d' e.
Proof.
  intros Hsub. unfold stored. destruct (em_event e); try done.
  intros (m' & Hin & H1 & H2). exists m'. auto.
Qed.

Lemma no_message_stored (d : database) (e : emission) : no_message e → stored d e.
Proof. unfold no_message, stored. by destruct (em_event e). Qed.

(** Whatever happens after the assistant's reply is known, an emission is
    made only for a message that has been stored. *)
Lemma bot_post_stored (env : environment) (room reply : string) (w1 : world) :
  ∃ es ms,
    emitted (bot_post env room reply w1).2 = emitted w1 ++ es ∧
    messages (db (bot_post env room reply w1).2) = messages (db w1) ++ ms ∧
    Forall (stored (db (bot_post env room reply w1).2)) es.
Proof.
  destruct (bot_post env room reply w1) as [res w3] eqn:Hrun. simpl.
  unfold bot_post, mbind at 1, M_bind in Hrun.
  destruct (getBotUser_outcome env w1) as (r & w2 & Hbot & Hm & He & _ & _ & Hr).
  rewrite Hbot in Hrun.
  destruct Hr as [(-> & _)|(b & -> & Hn & Hb & _)].
  { injection Hrun as <- <-. exists [], []. by rewrite !app_nil_r, Hm, He. }
  unfold gets, mbind at 1, M_bind in Hrun. unfold mbind, M_bind, prisma in Hrun.
  destruct (db_fails env _); simpl in Hrun.
  { injection Hrun as <- <-. exists [], []. simpl. by rewrite !app_nil_r, Hm, He. }
  unfold message_create in Hrun.
  destruct (user_by_id (user_id b) (db w2)) as [u|]; simpl in Hrun; injection Hrun as <- <-.
  - eexists [_], [_]. simpl. rewrite Hm, He. split; [done|]. split; [done|].
    constructor; [|done]. unfold stored. simpl. eexists.
    split; [apply elem_of_app; right; by apply list_elem_of_singleton|done].
  - exists [], []. simpl. by rewrite !app_nil_r, Hm, He.
Qed.

Lemma bot_reply_stored (env : environment) (room content : string) (w1 : world) :
  let w2 := (try_catch (bot_reply env room content) (console_error "chatMessage") w1).2 in
  ∃ es ms,
    emitted w2 = emitted w1 ++ es ∧
    messages (db w2) = messages (db w1) ++ ms ∧
    Forall (stored (db w2)) es.
Proof.
  intros w2. subst w2. rewrite bot_reply_unfold.
  destruct (_ && _); [|exists [], []; simpl; by rewrite !app_nil_r].
  destruct (Js.truthy _); [|exists [], []; simpl; by rewrite !app_nil_r].
  unfold try_catch, mbind, M_bind.
  destruct (getAIResponse_run env (userPrompt content) w1)
    as (reply & w1' & -> & _ & Hdb & Hem & _).
  destruct (bot_post_stored env room reply w1') as (es & ms & He & Hm & Hst).
  rewrite Hdb, Hem in *.
  destruct (bot_post env room reply w1') as [[[]|] w2]; simpl in *; by exists es, ms.
Qed.

Lemma on_chatMessage_emissions_stored (env : environment) (w : world) (sid : string)
    (s : socket) (room content : string) :
  emissions_stored w → emissions_stored (exec (on_chatMessage env sid s room content) w).
Proof.
  intros Hw. unfold emissions_stored, exec in *.
  destruct (store_fails_dec env w s) as [Hfail|[Hdb Hu]].
  - by rewrite on_chatMessage_not_stored.
  - rewrite on_chatMessage_stored by done.
    destruct (bot_reply_stored env room content (after_own_message w sid s room content))
      as (es & ms & -> & Hm & Hes).
    set (w2 := (try_catch _ _ _).2) in *. simpl in Hm. simpl.
    assert (∀ m, m ∈ messages (db w) ++ [own_message w s room content]
                 → m ∈ messages (db w2)) as Hsub
      by (intros m Hin; rewrite Hm; apply elem_of_app; by left).
    rewrite !Forall_app. split_and!; [| |done].
    + eapply Forall_impl; [exact Hw|]. intros e. apply stored_mono.
      intros m Hin. apply Hsub, elem_of_app. by left.
    + eapply Forall_impl; [apply fanout_emissions_event|].
      intros e He. unfold stored. rewrite He. exists (own_message w s room content).
      split; [|done]. apply Hsub, elem_of_app. right. by apply list_elem_of_singleton.
Qed.

(** A handler that only appends to the tables and emits no message keeps
    every delivered message stored. *)
Lemma stored_preserved {A} (m : M A) (w : world) :
  Grows m → EmitsOnly no_message m → emissions_stored w → emissions_stored (exec m w).
Proof.
  intros HG HE Hw. unfold emissions_stored, exec in *.
  destruct (HG w) as (_ & _ & _ & _ & [ms Hm] & _). destruct (HE w) as (es & -> & Hes).
  apply Forall_app. split.
  - eapply Forall_impl; [exact Hw|]. intros e. apply stored_mono.
    intros m' Hin. rewrite Hm. apply elem_of_app. by left.
  - eapply Forall_impl; [exact Hes|]. intros e. apply no_message_stored.
Qed.

Lemma handle_emissions_stored (env : environment) (i : inbound) (w : world) :
  emissions_stored w → emissions_stored (exec (handle env i) w).
Proof.
  intros Hw. destruct i as [sid user|sid sig|sid|dt]; unfold exec, handle, mbind, M_bind, gets.
  - destruct (sockets w !! sid) eqn:Hs; [done|].
    unfold emissions_stored in *. simpl. apply Forall_app. split; [done|]. by constructor.
  - destruct (sockets w !! sid) as [s|] eqn:Hs; [|done].
    destruct sig as [room|room content|room|room].
    + rewrite on_joinRoom_split.
      apply (stored_preserved (joinRoom_history env sid room));
        [apply Grows_joinRoom_history|by apply EmitsOnly_joinRoom_history|done].
    + by apply on_chatMessage_emissions_stored.
    + apply (stored_preserved (on_typing sid s room));
        [apply Grows_emit|by apply EmitsOnly_emit|done].
    + apply (stored_preserved (on_stopTyping sid s room));
        [apply Grows_emit|by apply EmitsOnly_emit|done].
  - destruct (sockets w !! sid) as [s|] eqn:Hs; [|done].
    unfold emissions_stored in *. simpl. apply Forall_app. split; [done|]. by constructor.
  - done.
Qed.

(** X14: whatever events the server receives from its start, every
    [chatMessage] event it has emitted carries the text and the time of a
    message that is in the database: nothing is delivered that was not
    stored first, also when the storage fails in between. *)
Theorem delivered_messages_are_stored (env : environment) (events : list inbound)
    (d : database) (t : nat) :
  emissions_stored (run env events (initial_world d t)).
Proof.
  assert (∀ w, emissions_stored w → emissions_stored (run env events w)) as H.
  { unfold run. induction events as [|i events IH]; intros w Hw; simpl; [done|].
    apply IH. by apply handle_emissions_stored. }
  apply H. apply Forall_nil_2.
Qed.

(** ** Rooms of a connected socket *)

Lemma rooms_grow_handle (env : environment) (i : inbound) (w : world) (sid : string)
    (s : socket) :
  sockets w !! sid = Some s → i ≠ Disconnect sid →
  ∃ s', sockets (exec (handle env i) w) !! sid = Some s'
        ∧ sock_user s' = sock_user s ∧ sock_rooms s ⊆ sock_rooms s'.
Proof.
  intros Hs Hi.
  destruct i as [sid' user|sid' sig|sid'|dt]; unfold exec, handle, mbind, M_bind, gets.
  - destruct (sockets w !! sid') eqn:Hs'; [by exists s|].
    simpl. rewrite lookup_insert_ne by congruence. by exists s.
  - destruct (sockets w !! sid') as [s0|] eqn:Hs'; [|by exists s].
    destruct sig as [room|room content|room|room].
    + fold (exec (on_joinRoom env sid' s0 room) w). rewrite on_joinRoom_rooms.
      destruct (decide (sid' = sid)) as [->|Hne].
      * rewrite lookup_insert_eq. eexists. split; [done|]. simpl.
        rewrite Hs in Hs'. injection Hs' as <-. split; [done|]. apply union_subseteq_l.
      * rewrite lookup_insert_ne by done. by exists s.
    + destruct (Grows_on_chatMessage env sid' s0 room content w) as (_ & -> & _).
      by exists s.
    + by exists s.
    + by exists s.
  - destruct (sockets w !! sid') as [s0|] eqn:Hs'; [|by exists s].
    simpl. rewrite lookup_delete_ne by congruence. by exists s.
  - by exists s.
Qed.

(** X15: as long as it does not disconnect, a connected socket keeps its
    identity and every room it is in, whatever events the server handles:
    joining adds rooms and nothing ever takes one away. *)
Theorem rooms_only_grow (env : environment) (events : list inbound) (w : world)
    (sid : string) (s : socket) :
  sockets w !! sid = Some s →
  Forall (λ i, i ≠ Disconnect sid) events →
  ∃ s', sockets (run env events w) !! sid = Some s'
        ∧ sock_user s' = sock_user s ∧ sock_rooms s ⊆ sock_rooms s'.
Proof.
  unfold run. revert w s. induction events as [|i events IH]; intros w s Hs Hall; simpl.
  - by exists s.
  - apply Forall_cons in Hall as [Hi Hall].
    destruct (rooms_grow_handle env i w sid s Hs Hi) as (s1 & Hs1 & Hu1 & Hr1).
    destruct (IH _ s1 Hs1 Hall) as (s' & Hs' & Hu' & Hr').
    exists s'. split; [done|]. split; [congruence|]. by etrans.
Qed.

Lemma rooms_only_grow_witness :
  let events := [FromClient "s1" (Client.joinRoom "random");
                 FromClient "s1" (Client.joinRoom "tech"); Disconnect "s2"] in
  let s := mkSocket alice {["s1"; "general"]} in
  ∃ s', sockets (run env_unconfigured events w_general) !! "s1" = Some s'
        ∧ sock_user s' = sock_user s ∧ sock_rooms s ⊆ sock_rooms s'.
Proof.
  intros events s. apply (rooms_only_grow env_unconfigured events w_general "s1" s).
  - vm_compute. reflexivity.
  - repeat constructor; discriminate.
Defined.

(** ** The client: what is submitted *)








(** ** The client: typing and presence lists *)

Lemma Set_add_all_spec (acc l : list string) :
  NoDup acc →
  NoDup (Set_add_all acc l) ∧ ∀ x, x ∈ Set_add_all acc l ↔ x ∈ acc ∨ x ∈ l.
Proof.
  unfold Set_add_all. revert acc. induction l as [|y l IH]; intros acc Hacc; simpl.
  - split; [done|]. intros x. rewrite elem_of_nil. tauto.
  - destruct (decide (y ∈ acc)) as [Hy|Hy].
    + destruct (IH acc Hacc) as [Hnd Hin]. split; [done|].
      intros x. rewrite Hin, elem_of_cons. split; [tauto|].
      intros [?|[->|?]]; tauto.
    + assert (NoDup (acc ++ [y])) as Hacc'.
      { apply NoDup_app. split_and!; [done| |apply NoDup_singleton].
        intros x Hx Hx'. apply list_elem_of_singleton in Hx' as ->. done. }
      destruct (IH _ Hacc') as [Hnd Hin]. split; [done|].
      intros x. rewrite Hin, elem_of_app, list_elem_of_singleton, elem_of_cons. tauto.
Qed.

Lemma Set_add_all_app (acc l : list string) :
  NoDup (acc ++ l) → Set_add_all acc l = acc ++ l.
Proof.
  unfold Set_add_all. revert acc. induction l as [|y l IH]; intros acc Hnd; simpl.
  - by rewrite app_nil_r.
  - apply NoDup_app in Hnd as Hnd'. destruct Hnd' as (_ & Hdisj & _).
    rewrite decide_False.
    + rewrite IH; [by rewrite <- app_assoc|]. by rewrite <- app_assoc.
    + intros Hy. apply (Hdisj y Hy). apply list_elem_of_here.
Qed.

Lemma Set_from_eq (l : list string) : JsExtra.Set_from l = Set_add_all [] l.
Proof. reflexivity. Qed.

Lemma elem_of_List_filter_ne (x y : string) (l : list string) :
  x ∈ List.filter (λ u, negb (bool_decide (u = y))) l ↔ x ∈ l ∧ x ≠ y.
Proof.
  rewrite !list_elem_of_In, filter_In, negb_true_iff, bool_decide_eq_false. done.
Qed.

Lemma List_filter_absent (y : string) (l : list string) :
  y ∉ l → List.filter (λ u, negb (bool_decide (u = y))) l = l.
Proof.
  induction l as [|x l IH]; simpl; [done|].
  intros Hy. apply not_elem_of_cons in Hy as [Hne Hy].
  rewrite bool_decide_eq_false_2 by done. simpl. by rewrite IH.
Qed.

Lemma ChatView_typing_step (me : string) (e : event) (st : ChatView.state) :
  NoDup (ChatView.typingUsers st) ∧ me ∉ ChatView.typingUsers st →
  NoDup (ChatView.typingUsers (ChatView.receive me e st))
  ∧ me ∉ ChatView.typingUsers (ChatView.receive me e st).
Proof.
  intros [Hnd Hme]. destruct e as [names|h|m|u|u]; simpl; try done.
  - case_bool_decide as Hu; [|done]. simpl. rewrite Set_from_eq.
    destruct (Set_add_all_spec [] (ChatView.typingUsers st ++ [u])) as [Hnd' Hin];
      [constructor|].
    split; [done|]. rewrite Hin, elem_of_nil, elem_of_app, list_elem_of_singleton.
    intros [[]|[?|?]]; [done|congruence].
  - split; [by apply NoDup_List_filter|].
    rewrite elem_of_List_filter_ne. tauto.
Qed.

(** X17: whatever events the client receives, its list of typing users
    never shows a name twice and never shows the user's own name. *)
Theorem typing_list_distinct (me : string) (events : list event) :
  let st := ChatView.receive_all me events ChatView.initial in
  NoDup (ChatView.typingUsers st) ∧ me ∉ ChatView.typingUsers st.
Proof.
  assert (∀ st, NoDup (ChatView.typingUsers st) ∧ me ∉ ChatView.typingUsers st →
            NoDup (ChatView.typingUsers (ChatView.receive_all me events st))
            ∧ me ∉ ChatView.typingUsers (ChatView.receive_all me events st)) as H.
  { unfold ChatView.receive_all. induction events as [|e events IH]; intros st Hst; simpl;
      [done|]. apply IH. by apply ChatView_typing_step. }
  apply H. simpl. split; [apply NoDup_nil_2|apply not_elem_of_nil].
Qed.

(** X18: a typing notification for another user who is not in the list
    puts the user at its end, a stop-typing notification takes the user
    out again, and the two together leave the list as it was. *)
Theorem typing_stop_round_trip (me u : string) (st : ChatView.state) :
  u ≠ me →
  NoDup (ChatView.typingUsers st) →
  u ∉ ChatView.typingUsers st →
  ChatView.typingUsers (ChatView.receive me (typing u) st) = ChatView.typingUsers st ++ [u] ∧
  ChatView.typingUsers (ChatView.receive me (stopTyping u) (ChatView.receive me (typing u) st))
  = ChatView.typingUsers st.
Proof.
  intros Hne Hnd Hu.
  assert (ChatView.typingUsers (ChatView.receive me (typing u) st)
          = ChatView.typingUsers st ++ [u]) as Htyping.
  { simpl. rewrite bool_decide_eq_true_2 by done. simpl.
    rewrite Set_from_eq, Set_add_all_app; [done|]. simpl.
    apply NoDup_app. split_and!; [done| |apply NoDup_singleton].
    intros x Hx Hx'. apply list_elem_of_singleton in Hx' as ->. done. }
  split; [done|].
  change (ChatView.typingUsers (ChatView.receive me (stopTyping u) ?s))
    with (List.filter (λ x, negb (bool_decide (x = u))) (ChatView.typingUsers s)).
  rewrite Htyping, List.filter_app. simpl. rewrite bool_decide_eq_true_2 by done. simpl.
  rewrite app_nil_r. by apply List_filter_absent.
Qed.

Lemma typing_stop_round_trip_witness :
  ChatView.typingUsers
    (ChatView.receive "alice" (stopTyping "bob")
       (ChatView.receive "alice" (typing "bob") (ChatView.mkState [] [] ["carol"])))
  = ["carol"].
Proof.
  apply (typing_stop_round_trip "alice" "bob" (ChatView.mkState [] [] ["carol"])).
  - discriminate.
  - apply (bool_decide_unpack _). vm_compute. exact I.
  - apply (bool_decide_unpack _). vm_compute. exact I.
Defined.

(** X19: for every presence snapshot the server has broadcast, the list of
    online users the client shows for it holds the other users of the
    snapshot, each once, and never the user's own name. *)
Theorem online_list_distinct (env : environment) (events : list inbound) (d : database)
    (t : nat) (e : emission) (names : list string) (me : string) (st : ChatView.state) :
  e ∈ emitted (run env events (initial_world d t)) →
  em_event e = updateUserList names →
  let shown := ChatView.onlineUsers (ChatView.receive me (updateUserList names) st) in
  NoDup shown ∧ (me ∉ shown) ∧ ∀ u, u ∈ shown ↔ u ∈ names ∧ u ≠ me.
Proof.
  intros He Hev shown.
  assert (NoDup names) as Hnd.
  { destruct (distinct_run env events (initial_world d t)) as [_ Hs];
      [split; [apply NoDup_nil_2|apply Forall_nil_2]|].
    unfold snapshots_distinct in Hs. rewrite Forall_forall in Hs.
    specialize (Hs e He). unfold snapshot_distinct in Hs. by rewrite Hev in Hs. }
  subst shown. simpl. split_and!.
  - by apply NoDup_List_filter.
  - rewrite elem_of_List_filter_ne. tauto.
  - intros u. apply elem_of_List_filter_ne.
Qed.

Lemma online_list_distinct_witness :
  let shown := ChatView.onlineUsers
                 (ChatView.receive "alice" (updateUserList ["alice"; "bob"]) ChatView.initial) in
  NoDup shown ∧ ("alice" ∉ shown) ∧ ∀ u, u ∈ shown ↔ u ∈ ["alice"; "bob"] ∧ u ≠ "alice".
Proof.
  apply (online_list_distinct env_unconfigured
           [Connection "s1" alice; FromClient "s1" (Client.joinRoom "general");
            Connection "s2" bob]
           db0 100
           (mkEmission Broadcast (updateUserList ["alice"; "bob"]) {["s1"; "s2"]})).
  - vm_compute. do 2 apply list_elem_of_further. apply list_elem_of_here.
  - reflexivity.
Defined.

(** ** The client: room labels *)

(** X20: the label of the direct room the client builds for its user and
    another user, both names without hyphen and colon, is [@] followed by
    the other user's name: the room name is decoded back to the partner. *)
Theorem getDisplayRoomName_partner (me other : string) :
  me ≠ other →
  Js.contains "-" me = false → Js.contains "-" other = false →
  Js.contains ":" me = false → Js.contains ":" other = false →
  ChatView.getDisplayRoomName me (canonicalDirectRoom me other) = Some ("@" +:+ other).
Proof.
  intros Hne Hh1 Hh2 Hc1 Hc2. unfold ChatView.getDisplayRoomName.
  fold (is_direct (canonicalDirectRoom me other)).
  rewrite canonicalDirectRoom_direct, split_canonicalDirectRoom by done. simpl.
  unfold Js.find.
  destruct (split_getDMRoomName me other Hh1 Hh2) as [-> | ->]; simpl.
  - rewrite bool_decide_eq_true_2 by done. simpl.
    rewrite bool_decide_eq_false_2 by done. done.
  - rewrite bool_decide_eq_false_2 by done. done.
Qed.

Lemma getDisplayRoomName_partner_witness :
  ChatView.getDisplayRoomName "alice" (canonicalDirectRoom "alice" "bob") = Some "@bob".
Proof. apply (getDisplayRoomName_partner "alice" "bob"); [discriminate|reflexivity..]. Defined.

(** X21: [getDisplayRoomName] never throws; a room that is not direct is
    labelled [#] followed by its name, a direct room gets a label that
    begins with [@]. *)
Theorem getDisplayRoomName_total (me room : string) :
  ∃ label,
    ChatView.getDisplayRoomName me room = Some label ∧
    (if is_direct room then Js.startsWith label "@" else bool_decide (label = "#" +:+ room))
    = true.
Proof.
  unfold ChatView.getDisplayRoomName, is_direct.
  destruct (Js.startsWith room "dm:") eqn:Hdm.
  - destruct (split_direct _ Hdm) as [part ->]. simpl. eexists. split; [reflexivity|].
    reflexivity.
  - eexists. split; [reflexivity|]. by apply bool_decide_eq_true_2.
Qed.

Lemma startsWith_append (p s : string) : Js.startsWith (p +:+ s) p = true.
Proof.
  induction p as [|c p IH]; [done|].
  change (Js.startsWith (String c (p +:+ s)) (String c p) = true).
  cbn [Js.startsWith]. unfold Js.startsWith in *. by rewrite decide_True.
Qed.

Lemma includes_here (s p : string) : Js.startsWith s p = true → JsExtra.includes s p = true.
Proof. intros H. destruct s; simpl; by rewrite H. Qed.

Lemma includes_append_l (a s p : string) :
  JsExtra.includes s p = true → JsExtra.includes (a +:+ s) p = true.
Proof.
  intros H. induction a as [|c a IH]; [done|].
  change (String c a +:+ s) with (String c (a +:+ s)).
  cbn [JsExtra.includes]. rewrite IH. apply orb_true_r.
Qed.

Lemma includes_append (a p b : string) : JsExtra.includes (a +:+ p +:+ b) p = true.
Proof. apply includes_append_l, includes_here, startsWith_append. Qed.

Lemma append_empty_r (s : string) : s +:+ "" = s.
Proof. induction s as [|c s IH]; [done|]. change (String c (s +:+ "") = String c s). by rewrite IH. Qed.

(** X22: while the user is in the direct room with another user, that
    user's button in the list of online users is shown active. *)
Theorem dm_button_active_partner (me other : string) :
  ChatView.dm_button_active (canonicalDirectRoom me other) other = true.
Proof.
  unfold ChatView.dm_button_active, canonicalDirectRoom.
  apply includes_append_l.
  destruct (getDMRoomName_cases me other) as [-> | ->].
  - apply includes_append_l, includes_append_l.
    rewrite <- (append_empty_r other) at 1. apply includes_here, startsWith_append.
  - apply includes_here, startsWith_append.
Qed.

(** ** Origins the server accepts *)

(** X23: an origin that contains [vercel.app] anywhere is accepted,
    whatever [ALLOWED_ORIGINS] lists. *)
Theorem cors_accepts_any_vercel_app (ALLOWED_ORIGINS : option string) (pre post : string) :
  cors_origin ALLOWED_ORIGINS (Some (pre +:+ "vercel.app" +:+ post)) = true.
Proof.
  unfold cors_origin. rewrite includes_append. apply orb_true_r.
Qed.

Lemma split_join (sep : ascii) (l : list string) :
  l ≠ [] → Forall (λ o, Js.contains sep o = false) l →
  Js.split sep (Js.join (String sep "") l) = l.
Proof.
  intros Hne Hall. induction Hall as [|o l Ho Hall IH]; [done|].
  destruct l as [|o' l].
  - simpl. by apply split_none.
  - change (Js.join (String sep "") (o :: o' :: l))
      with (o +:+ String sep (Js.join (String sep "") (o' :: l))).
    rewrite split_append by done. by rewrite IH.
Qed.

(** X24: when [ALLOWED_ORIGINS] is a list of origins joined with commas
    (at least one origin, none containing a comma), the server's list of
    allowed origins is that list, and an origin that is not empty is
    accepted exactly when it is in the list or contains [vercel.app]. *)
Theorem allowedOrigins_of_list (l : list string) (origin : string) :
  l ≠ [] →
  Forall (λ o, Js.contains "," o = false) l →
  origin ≠ "" →
  allowedOrigins (Some (Js.join "," l)) = l ∧
  (cors_origin (Some (Js.join "," l)) (Some origin) = true
   ↔ origin ∈ l ∨ JsExtra.includes origin "vercel.app" = true).
Proof.
  intros Hne Hall Ho.
  assert (allowedOrigins (Some (Js.join "," l)) = l) as Hl by by apply split_join.
  split; [done|]. unfold cors_origin. rewrite Hl.
  destruct origin as [|c r]; [done|]. simpl.
  rewrite orb_true_iff, bool_decide_eq_true. done.
Qed.

Lemma allowedOrigins_of_list_witness :
  allowedOrigins (Some (Js.join "," ["http://localhost:3002"; "https://chat.example.com"]))
  = ["http://localhost:3002"; "https://chat.example.com"].
Proof.
  apply (allowedOrigins_of_list ["http://localhost:3002"; "https://chat.example.com"]
           "https://chat.example.com").
  - discriminate.
  - repeat constructor.
  - discriminate.
Defined.

(** ** The session kept in [localStorage] *)

(** X25: after a login, the state the component would read back from
    [localStorage] on a reload is the state it is in; the chat is shown
    exactly when the token and the user name are not empty; the other keys
    of [localStorage] are untouched. *)
Theorem login_survives_reload (newToken newUsername : string)
    (localStorage : gmap string string) :
  let storage' := (App.handleLogin newToken newUsername localStorage).1 in
  let st := (App.handleLogin newToken newUsername localStorage).2 in
  App.init storage' = st ∧
  App.shows_chat st = Js.truthy newToken && Js.truthy newUsername ∧
  ∀ key, key ≠ "token" → key ≠ "username" → storage' !! key = localStorage !! key.
Proof.
  simpl. split_and!.
  - unfold App.init. rewrite lookup_insert_ne by done.
    by rewrite !lookup_insert_eq.
  - done.
  - intros key H1 H2. by rewrite !lookup_insert_ne.
Qed.

(** X26: after a logout, whatever was logged in before, a reload finds no
    session and the login form is shown; the other keys of [localStorage]
    are untouched. *)
Theorem logout_clears_session (localStorage : gmap string string) :
  let storage' := (App.handleLogout localStorage).1 in
  let st := (App.handleLogout localStorage).2 in
  App.init storage' = st ∧
  App.shows_chat st = false ∧
  App.shows_chat (App.init storage') = false ∧
  ∀ key, key ≠ "token" → key ≠ "username" → storage' !! key = localStorage !! key.
Proof.
  simpl.
  assert (App.init (delete "username" (delete "token" localStorage)) = App.mkState None None)
    as Hinit.
  { unfold App.init. rewrite lookup_delete_ne by done.
    by rewrite !lookup_delete_eq. }
  split_and!; [done|done|by rewrite Hinit|].
  intros key H1 H2. by rewrite !lookup_delete_ne.
Qed.

Lemma login_survives_reload_witness :
  (App.handleLogin "jwt" "alice" {["theme" := "dark"]}).1 !! "theme" = Some "dark".
Proof.
  destruct (login_survives_reload "jwt" "alice" {["theme" := "dark"]}) as (_ & _ & H).
  rewrite (H "theme"); [reflexivity|discriminate|discriminate].
Defined.

Lemma logout_clears_session_witness :
  (App.handleLogout {["theme" := "dark"; "token" := "jwt"]}).1 !! "theme" = Some "dark".
Proof.
  destruct (logout_clears_session {["theme" := "dark"; "token" := "jwt"]}) as (_ & _ & _ & H).
  rewrite (H "theme"); [reflexivity|discriminate|discriminate].
Defined.

(** ** Delivery in reachable worlds *)

(** X27: whatever events the server receives from its start, every entry
    of the registry names a socket that is connected and carries that
    identity, and every connected socket is in the room named by its own
    identifier. *)
Theorem reachable_well_formed (env : environment) (events : list inbound) (d : database)
    (t : nat) :
  well_formed (run env events (initial_world d t)).
Proof. apply well_formed_run, well_formed_initial. Qed.

Lemma direct_message_reaches_participant_witness :
  let s := mkSocket alice {["s1"; "general"]} in
  let m := mkMessageData "hi" "alice" 100 in
  let es := fanout_emissions w_general "s1" s (canonicalDirectRoom (sock_username s) "bob") m in
  match JsMap.get "bob" (userSockets w_general) with
  | Some rs =>
      rs ≠ "" →
      ∃ e, es = [e; mkEmission (ToSocket "s1") (chatMessage m) {["s1"]}] ∧
           em_target e = ToRoom rs ∧ em_event e = chatMessage m ∧ rs ∈ em_recipients e
  | None => es = [mkEmission (ToSocket "s1") (chatMessage m) {["s1"]}]
  end.
Proof.
  intros s m.
  apply (direct_message_reaches_participant w_general "s1" s "bob" m).
  - apply well_formed_run, well_formed_initial.
  - discriminate.
  - reflexivity.
  - reflexivity.
  - reflexivity.
  - reflexivity.
Defined.

(** X29: a message sent to a channel, not addressed to the assistant and
    accepted by the storage, is received exactly once by every socket that
    is in the channel at that moment and by no other socket; the sender
    receives it only if it is in the channel itself. *)
Theorem channel_message_delivery (env : environment) (w : world) (sid : string) (s : socket)
    (room content peer : string) :
  sockets w !! sid = Some s →
  is_direct room = false →
  Js.startsWith (Js.toLowerCase content) "@bot" = false →
  ¬ store_fails env w s →
  received peer (new_emissions (handle env (FromClient sid (Client.chatMessage room content))) w)
  = if bool_decide (peer ∈ membersOf (sockets w) room)
    then [chatMessage (own_data w s content)] else [].
Proof.
  intros Hs Hroom Hbot Hok.
  pose proof (bot_reply_skipped env room content (or_intror Hbot)) as Hskip.
  pose proof (on_chatMessage_without_reply env w sid s room content Hskip) as Hrun.
  rewrite bool_decide_eq_false_2 in Hrun by done.
  rewrite (new_emissions_app _ _
             [mkEmission (ToRoom room) (chatMessage (own_data w s content))
                (membersOf (sockets w) room)]).
  - unfold received. simpl. by case_bool_decide.
  - unfold exec. rewrite (handle_signal _ _ _ s) by done. rewrite Hrun. simpl.
    by rewrite channel_fanout.
Qed.

Lemma channel_message_delivery_witness :
  received "s2"
    (new_emissions (handle env_unconfigured (FromClient "s1" (Client.chatMessage "general" "hello")))
       w_general)
  = if bool_decide ("s2" ∈ membersOf (sockets w_general) "general")
    then [chatMessage (own_data w_general (mkSocket alice {["s1"; "general"]}) "hello")] else [].
Proof.
  apply (channel_message_delivery env_unconfigured w_general "s1"
           (mkSocket alice {["s1"; "general"]}) "general" "hello" "s2").
  - vm_compute. reflexivity.
  - reflexivity.
  - reflexivity.
  - intros [H|H]; vm_compute in H; discriminate.
Defined.
